(** * The chat orchestration hook (src/hooks/useChat.ts)

    A shallow embedding of the [useChat] hook: the hook state, the session
    store operations (load, sync, create, delete), the streaming turn of
    [sendMessage] with its cooperative cancellation, and the translation of
    backend failures into user-facing messages. *)

From Stdlib Require Import ZArith NArith Ascii String Sorted Permutation.
From stdpp Require Import base tactics option list numbers strings pretty gmap.

Local Open Scope Z_scope.

(** ** JavaScript strings

    A JavaScript string is a sequence of UTF-16 code units: [length],
    [slice] and [includes] all count code units.  String literals of the
    source are written as UTF-8 byte strings and decoded by [utf16]. *)

Abbreviation jstring := (list N).

Module JsString.

(** Decoding of a UTF-8 byte sequence into code points. *)
Fixpoint codePoints (bs : list N) : list N :=
    match bs with
    | [] => []
    | b :: r =>
        if (b <? 128)%N then b :: codePoints r
        else if (b <? 224)%N then
          match r with
          | c1 :: r1 => ((b mod 32) * 64 + c1 mod 64)%N :: codePoints r1
          | [] => []
          end
        else if (b <? 240)%N then
          match r with
          | c1 :: c2 :: r2 =>
              ((b mod 16) * 4096 + (c1 mod 64) * 64 + c2 mod 64)%N :: codePoints r2
          | _ => []
          end
        else
          match r with
          | c1 :: c2 :: c3 :: r3 =>
              ((b mod 8) * 262144 + (c1 mod 64) * 4096 + (c2 mod 64) * 64 + c3 mod 64)%N
                :: codePoints r3
          | _ => []
          end
    end.

(** A code point above the basic plane is a surrogate pair. *)
Definition codeUnits (cp : N) : list N :=
    if (cp <? 65536)%N then [cp]
    else [(55296 + (cp - 65536) / 1024)%N; (56320 + (cp - 65536) mod 1024)%N].

Fixpoint bytes (s : string) : list N :=
    match s with
    | EmptyString => []
    | String a r => N_of_ascii a :: bytes r
    end.

Definition utf16 (s : string) : jstring :=
    concat (map codeUnits (codePoints (bytes s))).

(** [s.startsWith(p)] and [s.includes(p)]. *)
Fixpoint startsWith (s p : jstring) : bool :=
    match p, s with
    | [], _ => true
    | _ :: _, [] => false
    | a :: p', b :: s' => (a =? b)%N && startsWith s' p'
    end.

Fixpoint includes (s p : jstring) : bool :=
    startsWith s p ||
    match s with
    | [] => false
    | _ :: s' => includes s' p
    end.

(** [s.slice(0, n)] for a non-negative [n], and [s.length]. *)
Definition slice0 (n : nat) (s : jstring) : jstring := take n s.

(** The code units that [trim] strips: WhiteSpace and LineTerminator. *)
Definition isWhiteSpace (c : N) : bool :=
    ((9 <=? c) && (c <=? 13) || (c =? 32) || (c =? 160) || (c =? 5760)
     || ((8192 <=? c) && (c <=? 8202)) || (c =? 8232) || (c =? 8233)
     || (c =? 8239) || (c =? 8287) || (c =? 12288) || (c =? 65279))%N.

(** [s.trim() === ''] : every code unit is stripped. *)
Definition isBlank (s : jstring) : bool := forallb isWhiteSpace s.

(** Truthiness of a string: the empty string is falsy. *)
Definition truthy (s : jstring) : bool :=
    match s with [] => false | _ :: _ => true end.

(** [n.toString()] for an integer [n]. *)
Definition ofZ (n : Z) : jstring := utf16 (pretty n).

End JsString.

Import JsString.

(** ** Data model (the types of the hook) *)

Inductive Sender := User | Model.

Inductive ModelId := Gemini3FlashPreview | Gemini3ProPreview.

#[global] Instance Sender_eq_dec : EqDecision Sender.
Proof. solve_decision. Defined.

#[global] Instance ModelId_eq_dec : EqDecision ModelId.
Proof. solve_decision. Defined.

(** An attachment is an object: [objRef] is its identity, which is what
    [===] compares; the other fields are its properties. *)
Record Attachment := mkAttachment {
  objRef : nat;
  mimeType : jstring;
  data : jstring;
  fileName : option jstring
}.

#[global] Instance Attachment_eq_dec : EqDecision Attachment.
Proof. solve_decision. Defined.

(** [a === b] on two optional attachments: [undefined] equals itself, two
    objects are equal when they are the same object. *)
Definition sameAttachment (a b : option Attachment) : bool :=
  match a, b with
  | None, None => true
  | Some x, Some y => bool_decide (objRef x = objRef y)
  | _, _ => false
  end.

Module Message.
Record t := mk {
    id : jstring;
    sender : Sender;
    text : jstring;
    timestamp : Z;
    isError : option bool;
    attachment : option Attachment
  }.

#[global] Instance eq_dec : EqDecision t.
  Proof. solve_decision. Defined.

(** [{ ...msg, text: s }] and the other object spreads of the hook. *)
Definition withText (s : jstring) (m : t) : t :=
    mk (id m) (sender m) s (timestamp m) (isError m) (attachment m).

Definition withTextError (s : jstring) (m : t) : t :=
    mk (id m) (sender m) s (timestamp m) (Some true) (attachment m).

Definition withTextAttachment (s : jstring) (a : Attachment) (m : t) : t :=
    mk (id m) (sender m) s (timestamp m) (isError m) (Some a).
End Message.

Module ChatSession.
Record t := mk {
    id : jstring;
    title : jstring;
    messages : list Message.t;
    updatedAt : Z
  }.

#[global] Instance eq_dec : EqDecision t.
  Proof. solve_decision. Defined.
End ChatSession.

(** A part of a backend message ([Part] of the client library): inline data
    (mime type and payload) or text. *)
Record Part := mkPart {
  inlineData : option (jstring * jstring);
  partText : option jstring
}.

(** The backend conversation context ([Chat] of the client library): the hook
    only creates it, drops it and hands it the outbound message. *)
Record Content := mkContent {
  role : jstring;
  parts : list Part
}.

Record Chat := mkChat {
  chatModel : ModelId;
  chatHistory : list Content
}.

Definition createChatSession (model : ModelId) (history : list Content) : Chat :=
  mkChat model history.

(** ** String constants of the hook *)

Definition defaultTitle : jstring :=
  Eval vm_compute in utf16 "Cuộc trò chuyện mới".

Definition ellipsis : jstring := Eval vm_compute in utf16 "...".

Definition quotaMessage : jstring :=
  Eval vm_compute in utf16 "Hệ thống đang bận hoặc đã hết hạn mức sử dụng miễn phí (429 Resource Exhausted). Vui lòng thử lại sau ít phút.".

Definition genericMessage : jstring :=
  Eval vm_compute in utf16 "Xin lỗi, đã có lỗi xảy ra. Vui lòng thử lại.".

Definition drawingCaption : jstring :=
  Eval vm_compute in utf16 "Đang vẽ hình...".

Definition autoImageCaption : jstring :=
  Eval vm_compute in utf16 "Đang tạo hình ảnh tự động...".

Definition imageReadyCaption : jstring :=
  Eval vm_compute in utf16 "Đây là hình ảnh mình vừa tạo theo yêu cầu của bạn:".

Definition imageFailedCaption : jstring :=
  Eval vm_compute in utf16 "Xin lỗi, mình không thể tạo hình ảnh lúc này.".

Definition generateImageName : jstring := Eval vm_compute in utf16 "generate_image".

Definition abortErrorName : jstring := Eval vm_compute in utf16 "AbortError".

Definition storageKeyPrefix : jstring := Eval vm_compute in utf16 "kite_sessions_".

(** ** getFriendlyErrorMessage

    A thrown value as the hook inspects it: its [status], [code] and [name]
    properties and the text [JSON.stringify] gives for it. *)
Record JsError := mkJsError {
  status : option Z;
  code : option Z;
  name : jstring;
  json : jstring
}.

Definition isQuotaError (error : JsError) : bool :=
  bool_decide (status error = Some 429)
  || bool_decide (code error = Some 429)
  || includes (json error) (utf16 "429")
  || includes (json error) (utf16 "RESOURCE_EXHAUSTED")
  || includes (json error) (utf16 "quota").

Definition getFriendlyErrorMessage (error : JsError) : jstring :=
  if isQuotaError error then quotaMessage else genericMessage.

(** ** The hook state

    The four [useState] cells, the model selection and the two refs.  An
    [AbortController] is an object shared by the ref and by the closure of
    the turn that created it: [signals] is the store of their [aborted]
    flags, and a controller is its index in it. *)
Record HookState := mkState {
  messages : list Message.t;
  sessions : list ChatSession.t;
  currentSessionId : option jstring;
  isLoading : bool;
  currentModel : ModelId;
  chatSessionRef : option Chat;
  abortControllerRef : option nat;
  signals : list bool
}.

Definition initialState : HookState :=
  mkState [] [] None false Gemini3FlashPreview None None [].

(** [controller.signal.aborted] *)
Definition aborted (controller : nat) (st : HookState) : bool :=
  bool_decide (signals st !! controller = Some true).

(** The state writes a handler issues, in the order of its statements: a
    setter called with a value or with an updater function, or an assignment
    to a ref.  React applies the queued setter calls of one handler in this
    order and renders once they are all applied. *)
Inductive update :=
| SetMessages (v : list Message.t)
| UpdateMessages (f : list Message.t -> list Message.t)
| SetSessions (v : list ChatSession.t)
| UpdateSessions (f : list ChatSession.t -> list ChatSession.t)
| SetCurrentSessionId (v : option jstring)
| SetIsLoading (v : bool)
| AssignChatSessionRef (v : option Chat)
| AssignAbortControllerRef (v : option nat).

Definition applyUpdate (st : HookState) (u : update) : HookState :=
  match u with
  | SetMessages v =>
      mkState v (sessions st) (currentSessionId st) (isLoading st) (currentModel st)
        (chatSessionRef st) (abortControllerRef st) (signals st)
  | UpdateMessages f =>
      mkState (f (messages st)) (sessions st) (currentSessionId st) (isLoading st)
        (currentModel st) (chatSessionRef st) (abortControllerRef st) (signals st)
  | SetSessions v =>
      mkState (messages st) v (currentSessionId st) (isLoading st) (currentModel st)
        (chatSessionRef st) (abortControllerRef st) (signals st)
  | UpdateSessions f =>
      mkState (messages st) (f (sessions st)) (currentSessionId st) (isLoading st)
        (currentModel st) (chatSessionRef st) (abortControllerRef st) (signals st)
  | SetCurrentSessionId v =>
      mkState (messages st) (sessions st) v (isLoading st) (currentModel st)
        (chatSessionRef st) (abortControllerRef st) (signals st)
  | SetIsLoading v =>
      mkState (messages st) (sessions st) (currentSessionId st) v (currentModel st)
        (chatSessionRef st) (abortControllerRef st) (signals st)
  | AssignChatSessionRef v =>
      mkState (messages st) (sessions st) (currentSessionId st) (isLoading st)
        (currentModel st) v (abortControllerRef st) (signals st)
  | AssignAbortControllerRef v =>
      mkState (messages st) (sessions st) (currentSessionId st) (isLoading st)
        (currentModel st) (chatSessionRef st) v (signals st)
  end.

Definition applyUpdates (us : list update) (st : HookState) : HookState :=
  foldl applyUpdate st us.

(** [controller.abort()] raises the flag of that controller in the store. *)
Definition abortSignal (controller : nat) (st : HookState) : HookState :=
  mkState (messages st) (sessions st) (currentSessionId st) (isLoading st)
    (currentModel st) (chatSessionRef st) (abortControllerRef st)
    (<[controller := true]> (signals st)).

(** [new AbortController()] allocates a fresh controller, not aborted. *)
Definition newController (st : HookState) : nat * HookState :=
  (length (signals st),
   mkState (messages st) (sessions st) (currentSessionId st) (isLoading st)
     (currentModel st) (chatSessionRef st) (abortControllerRef st)
     (signals st ++ [false])).

(** ** startNewChat and stopGeneration *)

Definition startNewChat_updates (shouldClearMessages : bool) : list update :=
  [SetCurrentSessionId None]
  ++ (if shouldClearMessages then [SetMessages []] else [])
  ++ [AssignChatSessionRef None; AssignAbortControllerRef None].

Definition startNewChat (shouldClearMessages : bool) (st : HookState) : HookState :=
  applyUpdates (startNewChat_updates shouldClearMessages) st.

Definition stopGeneration (st : HookState) : HookState :=
  let st1 :=
    match abortControllerRef st with
    | Some controller => abortSignal controller st
    | None => st
    end in
  applyUpdate st1 (SetIsLoading false).

(** ** The session store

    [sort((a, b) => b.updatedAt - a.updatedAt)]: [Array.prototype.sort] is
    stable, so its result is the stable arrangement by decreasing
    [updatedAt], which insertion from the right computes. *)
Fixpoint insertNewestFirst (x : ChatSession.t) (l : list ChatSession.t)
  : list ChatSession.t :=
  match l with
  | [] => [x]
  | y :: l' =>
      if ChatSession.updatedAt y <=? ChatSession.updatedAt x
      then x :: y :: l'
      else y :: insertNewestFirst x l'
  end.

Definition sortNewestFirst (l : list ChatSession.t) : list ChatSession.t :=
  foldr insertNewestFirst [] l.

(** The browser's local storage, and the JSON codec used on it:
    [parseSessions] is [JSON.parse(stored).map(...)] of the load effect,
    which throws ([None]) on malformed data, and [stringifySessions] is
    [JSON.stringify(sessions)]. *)
Class StorageCodec := {
  parseSessions : jstring -> option (list ChatSession.t);
  stringifySessions : list ChatSession.t -> jstring
}.

Definition storageKey (userEmail : jstring) : list N := storageKeyPrefix ++ userEmail.

(** A string or [null] used as a condition. *)
Definition truthyString (o : option jstring) : option jstring :=
  match o with
  | Some s => if truthy s then Some s else None
  | None => None
  end.

(** The effect that loads the sessions when [userEmail] changes. *)
Definition loadEffect_updates `{codec : StorageCodec} (userEmail : option jstring)
    (localStorage : gmap (list N) (list N)) : list update :=
  match truthyString userEmail with
  | Some email =>
      match truthyString (localStorage !! storageKey email) with
      | Some stored =>
          match parseSessions stored with
          | Some parsedSessions =>
              SetSessions (sortNewestFirst parsedSessions) :: startNewChat_updates true
          | None => startNewChat_updates true
          end
      | None => SetSessions [] :: startNewChat_updates true
      end
  | None => [SetSessions []; SetMessages []; SetCurrentSessionId None]
  end.

Definition loadEffect `{codec : StorageCodec} (userEmail : option jstring)
    (localStorage : gmap (list N) (list N)) (st : HookState) : HookState :=
  applyUpdates (loadEffect_updates userEmail localStorage) st.

(** The effect that saves the sessions whenever they change. *)
Definition saveEffect `{codec : StorageCodec} (userEmail : option jstring) (st : HookState)
    (localStorage : gmap (list N) (list N)) : gmap (list N) (list N) :=
  match truthyString userEmail with
  | Some email => <[storageKey email := stringifySessions (sessions st)]> localStorage
  | None => localStorage
  end.

(** What a state updater function returns: the array it was given, as is
    ([return prev]), or a new array. *)
Inductive updaterResult :=
| KeepPrev
| NewValue (v : list ChatSession.t).

(** The dirty check of the sync effect: same length, and the two last
    messages agree on id, text, error flag and attachment object. *)
Definition sameAsStored (stored live : list Message.t) : bool :=
  bool_decide (length stored = length live)
  && match last stored, last live with
     | Some lastSessionMsg, Some lastMsg =>
         bool_decide (Message.id lastSessionMsg = Message.id lastMsg)
         && bool_decide (Message.text lastSessionMsg = Message.text lastMsg)
         && bool_decide (Message.isError lastSessionMsg = Message.isError lastMsg)
         && sameAttachment (Message.attachment lastSessionMsg) (Message.attachment lastMsg)
     | _, _ => false
     end.

(** The title of the sync effect: derived from the first user message while
    the title is still the default one. *)
Definition deriveTitle (title : jstring) (live : list Message.t) : jstring :=
  if bool_decide (title = defaultTitle) && bool_decide (0 < length live)%nat then
    match list_find (fun m => Message.sender m = User) live with
    | Some (_, firstUserMsg) =>
        slice0 30 (Message.text firstUserMsg)
        ++ (if bool_decide (30 < length (Message.text firstUserMsg))%nat
            then ellipsis else [])
    | None => title
    end
  else title.

(** The updater the sync effect passes to [setSessions]. *)
Definition syncUpdater (now : Z) (currentSessionId : jstring)
    (live : list Message.t) (prev : list ChatSession.t) : updaterResult :=
  match list_find (fun s => ChatSession.id s = currentSessionId) prev with
  | None => KeepPrev
  | Some (existingSessionIndex, currentSession) =>
      if sameAsStored (ChatSession.messages currentSession) live then KeepPrev
      else
        let title := deriveTitle (ChatSession.title currentSession) live in
        let updatedSessions :=
          <[existingSessionIndex :=
              ChatSession.mk (ChatSession.id currentSession) title live now]> prev in
        NewValue (sortNewestFirst updatedSessions)
  end.

(** What one run of the sync effect does to the session array. *)
Definition syncOutcome (now : Z) (st : HookState) : updaterResult :=
  match truthyString (currentSessionId st) with
  | Some current =>
      if bool_decide (0 < length (messages st))%nat
      then syncUpdater now current (messages st) (sessions st)
      else KeepPrev
  | None => KeepPrev
  end.

Definition syncEffect (now : Z) (st : HookState) : HookState :=
  match syncOutcome now st with
  | KeepPrev => st
  | NewValue v => applyUpdate st (SetSessions v)
  end.

Definition loadSession (sessionId : jstring) (st : HookState) : HookState :=
  match list_find (fun s => ChatSession.id s = sessionId) (sessions st) with
  | Some (_, session) =>
      applyUpdates [SetCurrentSessionId (Some (ChatSession.id session));
                    SetMessages (ChatSession.messages session);
                    AssignChatSessionRef None] st
  | None => st
  end.

(** [deleteSession]: the click event is only stopped from propagating. *)
Definition deleteSession_updates (sessionId : jstring)
    (currentSessionId : option jstring) : list update :=
  UpdateSessions (filter (fun s => ChatSession.id s <> sessionId))
  :: (if bool_decide (Some sessionId = currentSessionId)
      then startNewChat_updates true else []).

Definition deleteSession (sessionId : jstring) (st : HookState) : HookState :=
  applyUpdates (deleteSession_updates sessionId (currentSessionId st)) st.

(** [clearAllSessions]: [confirmed] is the answer of [window.confirm]. *)
Definition clearAllSessions (confirmed : bool) (st : HookState) : HookState :=
  if confirmed then applyUpdates (SetSessions [] :: startNewChat_updates true) st
  else st.

(** The effect that rebuilds the backend context when the model or the
    current session changes: the history is the live list without error
    messages and without messages that have neither text nor attachment. *)
Definition historyOf (live : list Message.t) : list Content :=
  map (fun m =>
         mkContent
           (if bool_decide (Message.sender m = User) then utf16 "user" else utf16 "model")
           (match Message.attachment m with
            | Some a => [mkPart (Some (mimeType a, data a)) None]
            | None => []
            end
            ++ (if truthy (Message.text m) then [mkPart None (Some (Message.text m))]
                else [])))
      (filter (fun m =>
                 Message.isError m <> Some true
                 /\ (isBlank (Message.text m) = false \/ Message.attachment m <> None))
              live).

Definition initChatEffect (st : HookState) : HookState :=
  applyUpdate st
    (AssignChatSessionRef (Some (createChatSession (currentModel st) (historyOf (messages st))))).

(** ** The streaming turn of sendMessage

    What the backend client delivers: the chunks of the stream, and the reply
    to an image request. *)
Record FunctionCall := mkFunctionCall {
  callName : option jstring;
  (** [call.args], and in it the [prompt] property *)
  callArgs : option (option jstring)
}.

Record StreamChunk := mkChunk {
  functionCalls : option (list FunctionCall);
  chunkText : option jstring
}.

Inductive ImageResult :=
| ImageResponse (candidateParts : option (list Part))
| ImageFailure (err : JsError).

(** One exchange with [generateImage]: its result, whether the user pressed
    stop while the request was pending, and the identity of the attachment
    object the hook builds from the reply. *)
Record ImageExchange := mkImageExchange {
  stopWhilePending : bool;
  imageResult : ImageResult;
  freshObject : nat
}.

(** The readings of [Date.now()] and [new Date()] during one turn. *)
Record TurnClock := mkTurnClock {
  userMsgNow : Z;
  userMsgDate : Z;
  sessionIdNow : Z;
  sessionUpdatedNow : Z;
  botMsgNow : Z;
  botMsgDate : Z;
  errorMsgNow : Z;
  errorMsgDate : Z
}.

(** The variables a turn closes over. *)
Record Turn := mkTurn {
  controller : nat;
  botMsgId : jstring;
  outboundText : jstring;
  turnModel : ModelId
}.

(** The value thrown by a property read on [undefined]. *)
Definition typeError : JsError :=
  mkJsError None None (utf16 "TypeError") (utf16 "{}").

(** The loop over [candidate.content.parts] of [handleImageGeneration]. *)
Definition collectImageParts (parts : list Part)
  : option (jstring * jstring) * jstring :=
  foldl (fun acc part =>
           match inlineData part with
           | Some d => (Some d, acc.2)
           | None =>
               match truthyString (partText part) with
               | Some t => (acc.1, acc.2 ++ t)
               | None => acc
               end
           end) (None, []) parts.

Definition mapBotMessage (botMsgId : jstring) (f : Message.t -> Message.t)
    (prev : list Message.t) : list Message.t :=
  map (fun msg => if bool_decide (Message.id msg = botMsgId) then f msg else msg) prev.

Definition handleImageGeneration (generateImage : jstring -> ImageExchange)
    (prompt : jstring) (T : Turn) (st : HookState) : HookState :=
  let ex := generateImage prompt in
  let st1 := if stopWhilePending ex then stopGeneration st else st in
  if aborted (controller T) st1 then st1
  else
    match imageResult ex with
    | ImageResponse candidateParts =>
        let '(generatedAttachment, generatedText) :=
          collectImageParts (default [] candidateParts) in
        applyUpdate st1 (UpdateMessages (mapBotMessage (botMsgId T)
          (match generatedAttachment with
           | Some (mime, d) =>
               Message.withTextAttachment
                 (if truthy generatedText then generatedText else imageReadyCaption)
                 (mkAttachment (freshObject ex) mime d None)
           | None => Message.withTextError imageFailedCaption
           end)))
    | ImageFailure err =>
        applyUpdate st1 (UpdateMessages (mapBotMessage (botMsgId T)
          (Message.withTextError (getFriendlyErrorMessage err))))
    end.

(** The part of [sendMessage] that runs before its first [await]: [None]
    when the outbound content is empty and the call returns at once. *)
Definition sendMessage_begin (clk : TurnClock) (text : jstring)
    (attachment : option Attachment) (isImageGen : bool) (st : HookState)
  : option (Turn * HookState) :=
  if isBlank text && bool_decide (attachment = None) then None
  else
    let '(controller, st0) := newController st in
    let st1 := applyUpdate st0 (AssignAbortControllerRef (Some controller)) in
    let userMessage :=
      Message.mk (ofZ (userMsgNow clk)) User text (userMsgDate clk) None attachment in
    let st2 :=
      match truthyString (currentSessionId st) with
      | Some _ => st1
      | None =>
          let activeSessionId := ofZ (sessionIdNow clk) in
          let newSession :=
            ChatSession.mk activeSessionId
              (if truthy (slice0 30 text) then slice0 30 text else defaultTitle)
              (messages st ++ [userMessage]) (sessionUpdatedNow clk) in
          applyUpdates [SetCurrentSessionId (Some activeSessionId);
                        UpdateSessions (cons newSession)] st1
      end in
    let botMsgId := ofZ (botMsgNow clk + 1) in
    let st3 :=
      applyUpdates
        [UpdateMessages (fun prev => prev ++ [userMessage]);
         SetIsLoading true;
         UpdateMessages (fun prev => prev ++
           [Message.mk botMsgId Model (if isImageGen then drawingCaption else [])
              (botMsgDate clk) None None])] st2 in
    let st4 :=
      if isImageGen then st3
      else match chatSessionRef st3 with
           | Some _ => st3
           | None =>
               applyUpdate st3
                 (AssignChatSessionRef (Some (createChatSession (currentModel st) [])))
           end in
    Some (mkTurn controller botMsgId text (currentModel st), st4).

(** The updater that appends a chunk's text to the last message: [None] when
    the list is empty, where reading [lastMsg.id] throws inside the updater. *)
Definition appendChunkText (botMsgId chunkText : jstring) (prev : list Message.t)
  : option (list Message.t) :=
  match last prev with
  | None => None
  | Some lastMsg =>
      Some (if bool_decide (Message.id lastMsg = botMsgId)
            then take (length prev - 1) prev
                 ++ [Message.withText (Message.text lastMsg ++ chunkText) lastMsg]
            else prev)
  end.

Inductive stepResult :=
| Continue (st : HookState)
| Break (st : HookState)
| Throw (e : JsError) (st : HookState)
| Crash.

(** The body of the [for await] loop after the cancellation check.  The
    flag [isFunctionCallDetected] is raised only on the path that leaves the
    loop, so the guard on it always passes. *)
Definition chunkStep (generateImage : jstring -> ImageExchange) (T : Turn)
    (chunk : StreamChunk) (st : HookState) : stepResult :=
  let appendText :=
    match truthyString (chunkText chunk) with
    | None => Continue st
    | Some t =>
        match appendChunkText (botMsgId T) t (messages st) with
        | Some ms => Continue (applyUpdate st (SetMessages ms))
        | None => Crash
        end
    end in
  match functionCalls chunk with
  | Some (call :: _) =>
      if bool_decide (callName call = Some generateImageName) then
        match callArgs call with
        | None => Throw typeError st
        | Some p =>
            let prompt := default (outboundText T) (truthyString p) in
            let st1 :=
              applyUpdate st (UpdateMessages
                (mapBotMessage (botMsgId T) (Message.withText autoImageCaption))) in
            Break (handleImageGeneration generateImage prompt T st1)
        end
      else appendText
  | _ => appendText
  end.

(** What happens while a turn is awaiting: the stream yields a chunk, or the
    user presses the stop button. *)
Inductive event :=
| ChunkArrives (chunk : StreamChunk)
| StopPressed.

(** How the stream ends once its chunks are consumed. *)
Inductive streamEnd :=
| StreamDone
| StreamFailed (e : JsError).

Inductive loopResult :=
| Exhausted (st : HookState)
| Broke (st : HookState)
| Threw (e : JsError) (st : HookState)
| Crashed.

Fixpoint consume (generateImage : jstring -> ImageExchange) (T : Turn)
    (evs : list event) (st : HookState) : loopResult :=
  match evs with
  | [] => Exhausted st
  | StopPressed :: evs' => consume generateImage T evs' (stopGeneration st)
  | ChunkArrives chunk :: evs' =>
      if aborted (controller T) st then Broke st
      else
        match chunkStep generateImage T chunk st with
        | Continue st' => consume generateImage T evs' st'
        | Break st' => Broke st'
        | Throw e st' => Threw e st'
        | Crash => Crashed
        end
  end.

Definition catchBlock (clk : TurnClock) (T : Turn) (error : JsError)
    (st : HookState) : HookState :=
  if aborted (controller T) st || bool_decide (name error = abortErrorName) then st
  else
    applyUpdates
      [UpdateMessages (fun prev => prev ++
         [Message.mk (ofZ (errorMsgNow clk)) Model (getFriendlyErrorMessage error)
            (errorMsgDate clk) (Some true) None]);
       AssignChatSessionRef (Some (createChatSession (turnModel T) []))] st.

Definition finallyBlock (T : Turn) (st : HookState) : HookState :=
  if bool_decide (abortControllerRef st = Some (controller T))
  then applyUpdates [AssignAbortControllerRef None; SetIsLoading false] st
  else st.

(** The [try]/[catch]/[finally] around the loop: [None] stands for the
    exception a state updater throws outside of it. *)
Definition settle (clk : TurnClock) (T : Turn) (r : loopResult)
    (fin : streamEnd) : option HookState :=
  match r with
  | Crashed => None
  | Broke st => Some (finallyBlock T st)
  | Threw e st => Some (finallyBlock T (catchBlock clk T e st))
  | Exhausted st =>
      match fin with
      | StreamDone => Some (finallyBlock T st)
      | StreamFailed e => Some (finallyBlock T (catchBlock clk T e st))
      end
  end.

(** A whole call of [sendMessage], with what its environment does while it
    is suspended. *)
Definition sendMessage (generateImage : jstring -> ImageExchange)
    (clk : TurnClock) (text : jstring) (attachment : option Attachment)
    (isImageGen : bool) (evs : list event) (fin : streamEnd) (st : HookState)
  : option HookState :=
  match sendMessage_begin clk text attachment isImageGen st with
  | None => Some st
  | Some (T, st1) =>
      if isImageGen
      then Some (finallyBlock T (handleImageGeneration generateImage text T st1))
      else settle clk T (consume generateImage T evs st1) fin
  end.

(** ** More string operations, used by the components *)

Module JsText.

(** [s.endsWith(p)] *)
Definition endsWith (s p : jstring) : bool := startsWith (reverse s) (reverse p).

(** [s.trim()]: the white space at both ends is stripped. *)
Fixpoint trimStart (s : jstring) : jstring :=
  match s with
  | [] => []
  | c :: r => if isWhiteSpace c then trimStart r else s
  end.

Definition trim (s : jstring) : jstring :=
  reverse (trimStart (reverse (trimStart s))).

(** [s.split(sep)[0]] for a separator of one code unit. *)
Fixpoint firstField (sep : N) (s : jstring) : jstring :=
  match s with
  | [] => []
  | c :: r => if (c =? sep)%N then [] else c :: firstField sep r
  end.

(** What follows the first separator, if there is one. *)
Fixpoint afterSeparator (sep : N) (s : jstring) : option jstring :=
  match s with
  | [] => None
  | c :: r => if (c =? sep)%N then Some r else afterSeparator sep r
  end.

(** [s.split(sep)[1]]: [None] is [undefined]. *)
Definition secondField (sep : N) (s : jstring) : option jstring :=
  firstField sep <$> afterSeparator sep s.

End JsText.

Import JsText.

(** [toLowerCase] follows the Unicode case mapping, which is not spelled out
    here: the components are modelled over any such function. *)
Class Casing := { toLowerCase : jstring -> jstring }.

(** ** The login screen (src/components/LoginScreen.tsx) *)

Definition fillAllMessage : jstring :=
  Eval vm_compute in utf16 "Vui lòng điền đầy đủ thông tin.".

Definition gmailOnlyMessage : jstring :=
  Eval vm_compute in utf16 "Vui lòng sử dụng tài khoản Gmail (@gmail.com).".

Definition shortPasswordMessage : jstring :=
  Eval vm_compute in utf16 "Mật khẩu phải có ít nhất 12 ký tự.".

Definition gmailSuffix : jstring := Eval vm_compute in utf16 "@gmail.com".

Record LoginForm := mkLoginForm {
  email : jstring;
  password : jstring;
  error : option jstring;
  formLoading : bool
}.

(** [handleSubmit]: the form after the handler, and the email the timer it
    starts will hand to [onLogin], if it starts one. *)
Definition handleSubmit `{casing : Casing} (f : LoginForm) : LoginForm * option jstring :=
  if negb (truthy (trim (email f))) || negb (truthy (trim (password f))) then
    (mkLoginForm (email f) (password f) (Some fillAllMessage) (formLoading f), None)
  else if negb (endsWith (toLowerCase (email f)) gmailSuffix) then
    (mkLoginForm (email f) (password f) (Some gmailOnlyMessage) (formLoading f), None)
  else if bool_decide (length (password f) < 12)%nat then
    (mkLoginForm (email f) (password f) (Some shortPasswordMessage) (formLoading f), None)
  else
    (mkLoginForm (email f) (password f) None true, Some (email f)).

(** ** The identity kept by the application (src/App.tsx) *)

Definition userEmailKey : jstring := Eval vm_compute in utf16 "kite_user_email".

(** The initial value of [userEmail]. *)
Definition initialUserEmail (localStorage : gmap (list N) (list N)) : option jstring :=
  localStorage !! userEmailKey.

Definition handleLogin (email : jstring) (localStorage : gmap (list N) (list N))
  : gmap (list N) (list N) * option jstring :=
  (<[userEmailKey := email]> localStorage, Some email).

Definition handleLogout (localStorage : gmap (list N) (list N))
  : gmap (list N) (list N) * option jstring :=
  (delete userEmailKey localStorage, None).

(** The sessions listed in the sidebar for a search query. *)
Definition filteredSessions `{casing : Casing} (searchQuery : jstring)
    (sessions : list ChatSession.t) : list ChatSession.t :=
  filter (fun session =>
            includes (toLowerCase (ChatSession.title session))
              (toLowerCase searchQuery) = true) sessions.

(** ** The message input (src/components/ChatInput.tsx) *)

Record InputState := mkInputState {
  inputText : jstring;
  inputAttachment : option Attachment;
  previewUrl : option jstring;
  shownFileName : option jstring;
  isImageMode : bool;
  isTranscribing : bool
}.

(** [handleSend]: the input after the handler and the arguments of the call
    of [onSend], if it is made. *)
Definition handleSend (isLoading : bool) (s : InputState)
  : InputState * option (jstring * option Attachment * bool) :=
  if (truthy (trim (inputText s)) || bool_decide (inputAttachment s <> None))
     && negb isLoading
  then (mkInputState [] None None None false (isTranscribing s),
        Some (inputText s, inputAttachment s, isImageMode s))
  else (s, None).

Definition noSpeechSentinel : jstring := Eval vm_compute in utf16 "[[NO_SPEECH]]".

(** The reply of the transcription service: a response with an optional
    text, or a failure. *)
Inductive TranscriptionResult :=
| Transcribed (responseText : option jstring)
| TranscriptionFailed.

Definition processAudio (r : TranscriptionResult) (s : InputState) : InputState :=
  let newText :=
    match r with
    | Transcribed responseText =>
        match trim <$> responseText with
        | Some transcribedText =>
            if negb (truthy transcribedText)
               || bool_decide (transcribedText = noSpeechSentinel)
            then inputText s
            else
              let spacer :=
                if truthy (inputText s) && negb (endsWith (inputText s) (utf16 " "))
                then utf16 " " else [] in
              inputText s ++ spacer ++ transcribedText
        | None => inputText s
        end
    | TranscriptionFailed => inputText s
    end in
  mkInputState newText (inputAttachment s) (previewUrl s) (shownFileName s)
    (isImageMode s) false.

(** A file picked by the user: its MIME type and its name. *)
Record FileInfo := mkFileInfo {
  fileType : jstring;
  pickedName : jstring
}.

Definition codeOrDataTypes : list jstring :=
  Eval vm_compute in
  map utf16 ["application/json"; "application/xml"; "application/x-javascript";
             "application/ld+json"]%string.

Definition validExtensions : list jstring :=
  Eval vm_compute in
  map utf16 [".js"; ".jsx"; ".ts"; ".tsx"; ".py"; ".rb"; ".java"; ".c"; ".cpp"; ".h";
             ".html"; ".css"; ".md"; ".txt"; ".csv"; ".json"]%string.

Definition hasValidExt `{casing : Casing} (file : FileInfo) : bool :=
  existsb (fun ext => endsWith (toLowerCase (pickedName file)) ext) validExtensions.

Inductive fileDecision :=
| NoFile
| NotAnImage
| Unsupported
| Reading (mimeType : jstring).

(** [handleFileSelect] up to the start of the read: the alert it raises, or
    the MIME type the attachment will carry. *)
Definition handleFileSelect `{casing : Casing} (file : option FileInfo) (isImageOnly : bool)
  : fileDecision :=
  match file with
  | None => NoFile
  | Some file =>
      if isImageOnly && negb (startsWith (fileType file) (utf16 "image/")) then NotAnImage
      else
        let isMedia :=
          startsWith (fileType file) (utf16 "image/")
          || startsWith (fileType file) (utf16 "audio/")
          || startsWith (fileType file) (utf16 "video/") in
        let isDocument :=
          bool_decide (fileType file = utf16 "application/pdf")
          || startsWith (fileType file) (utf16 "text/") in
        let isCodeOrData := bool_decide (fileType file ∈ codeOrDataTypes) in
        if negb isMedia && negb isDocument && negb isCodeOrData && negb (hasValidExt file)
        then Unsupported
        else Reading (if negb (truthy (fileType file)) && hasValidExt file
                      then utf16 "text/plain" else fileType file)
  end.

(** The [onloadend] callback of the reader, given the data URL it read and
    the identity of the attachment object it builds: [None] when the URL has
    no comma, where the attachment would carry [undefined] as data. *)
Definition onloadend (file : FileInfo) (mimeType result : jstring) (fresh : nat)
    (s : InputState) : option InputState :=
  match secondField 44 result with
  | Some base64Data =>
      let a := mkAttachment fresh mimeType base64Data (Some (pickedName file)) in
      Some (if startsWith (fileType file) (utf16 "image/")
            then mkInputState (inputText s) (Some a) (Some result) None
                   (isImageMode s) (isTranscribing s)
            else mkInputState (inputText s) (Some a) None (Some (pickedName file))
                   (isImageMode s) (isTranscribing s))
  | None => None
  end.

(** ** The message bubble (ChatBubble) *)

(** The assistant message is shown as "thinking". *)
Definition isThinking (message : Message.t) : bool :=
  negb (bool_decide (Message.sender message = User))
  && negb (truthy (Message.text message))
  && bool_decide (Message.attachment message = None)
  && negb (bool_decide (Message.isError message = Some true)).

(** The data URL the bubble shows for an image attachment. *)
Definition imageUrl (message : Message.t) : jstring :=
  match Message.attachment message with
  | Some a =>
      if startsWith (mimeType a) (utf16 "image/")
      then utf16 "data:" ++ mimeType a ++ utf16 ";base64," ++ data a
      else []
  | None => []
  end.

(** ** The hook as the application drives it (src/App.tsx)

    While [userEmail] is falsy the application renders the login screen and
    nothing else (line 120), so no handler of the hook can be called.  What
    can still run is what was started before: a turn in flight goes through
    one more iteration of its chunk loop, receives the reply to its image
    request, or runs its [catch] or its [finally] block; and the effects of
    the hook that depend on the live list or on the current session run
    again. *)
Inductive backgroundEvent :=
| LoopIteration (generateImage : jstring -> ImageExchange) (T : Turn) (chunk : StreamChunk)
| ImageReplyArrives (generateImage : jstring -> ImageExchange) (prompt : jstring) (T : Turn)
| CatchRuns (clk : TurnClock) (T : Turn) (error : JsError)
| FinallyRuns (T : Turn)
| SyncRuns (now : Z)
| InitChatRuns.

(** One such step: [None] when a state updater throws. *)
Definition backgroundStep (ev : backgroundEvent) (st : HookState) : option HookState :=
  match ev with
  | LoopIteration generateImage T chunk =>
      if aborted (controller T) st then Some st
      else
        match chunkStep generateImage T chunk st with
        | Continue st' | Break st' | Throw _ st' => Some st'
        | Crash => None
        end
  | ImageReplyArrives generateImage prompt T =>
      Some (handleImageGeneration generateImage prompt T st)
  | CatchRuns clk T error => Some (catchBlock clk T error st)
  | FinallyRuns T => Some (finallyBlock T st)
  | SyncRuns now => Some (syncEffect now st)
  | InitChatRuns => Some (initChatEffect st)
  end.

Fixpoint backgroundRun (evs : list backgroundEvent) (st : HookState) : option HookState :=
  match evs with
  | [] => Some st
  | ev :: evs' =>
      match backgroundStep ev st with
      | Some st' => backgroundRun evs' st'
      | None => None
      end
  end.

(** The states in which the load effect can find the hook when it runs for
    a truthy identity.  [handleLogin] is reachable from the login screen
    only, which is shown only while [userEmail] is falsy: a truthy identity
    is either the one remembered at mount (line 12), loaded on the initial
    state of the hook, or it follows a falsy one, for which the load effect
    has run (at mount or at [handleLogout]) before anything else could. *)
Inductive stateAtLogin `{codec : StorageCodec} : HookState -> Prop :=
| atMount : stateAtLogin initialState
| afterLoggedOut (userEmail : option jstring) (localStorage : gmap (list N) (list N))
    (st0 : HookState) (evs : list backgroundEvent) (st : HookState) :
    truthyString userEmail = None ->
    backgroundRun evs (loadEffect userEmail localStorage st0) = Some st ->
    stateAtLogin st.

(** ** Properties stated by the specification *)

(** The session collection is in descending order of [updatedAt]: every
    session is at least as recent as the one after it. *)
Definition newestFirst (l : list ChatSession.t) : Prop :=
  forall i a b, l !! i = Some a -> l !! S i = Some b ->
    ChatSession.updatedAt b <= ChatSession.updatedAt a.

Definition sessionIds (l : list ChatSession.t) : list jstring :=
  ChatSession.id <$> l.

(** The objects a call of [sendMessage] builds, named for the statements
    below: the user message, the assistant placeholder and the new session. *)
Definition userMessageOf (clk : TurnClock) (text : jstring)
    (attachment : option Attachment) : Message.t :=
  Message.mk (ofZ (userMsgNow clk)) User text (userMsgDate clk) None attachment.

Definition placeholderOf (clk : TurnClock) (isImageGen : bool) : Message.t :=
  Message.mk (ofZ (botMsgNow clk + 1)) Model
    (if isImageGen then drawingCaption else []) (botMsgDate clk) None None.

Definition newSessionOf (clk : TurnClock) (text : jstring)
    (attachment : option Attachment) (st : HookState) : ChatSession.t :=
  ChatSession.mk (ofZ (sessionIdNow clk))
    (if truthy (slice0 30 text) then slice0 30 text else defaultTitle)
    (messages st ++ [userMessageOf clk text attachment]) (sessionUpdatedNow clk).

(** The titles of the stored sessions once a first message has been sent
    from [st] and the sync effect has run on the result. *)
Definition titlesAfterSendAndSync (clk : TurnClock) (text : jstring)
    (attachment : option Attachment) (now : Z) (st : HookState) : list jstring :=
  match sendMessage_begin clk text attachment false st with
  | Some (_, st1) => ChatSession.title <$> sessions (syncEffect now st1)
  | None => ChatSession.title <$> sessions st
  end.

(** "Every write of a non-empty session array is preceded, in the same
    handler, by the reset of the live list and of the current session id." *)
Definition resetPrecedesSessions (us : list update) : Prop :=
  forall i v, us !! i = Some (SetSessions v) -> v <> [] ->
    exists j k, (j < i)%nat /\ (k < i)%nat
      /\ us !! j = Some (SetMessages [])
      /\ us !! k = Some (SetCurrentSessionId None).

(** "Every write of the session array is followed, in the same handler, by
    the reset of the live list and of the current session id." *)
Definition resetFollowsSessions (us : list update) : Prop :=
  forall i v, us !! i = Some (SetSessions v) ->
    exists j k, (i < j)%nat /\ (i < k)%nat
      /\ us !! j = Some (SetMessages [])
      /\ us !! k = Some (SetCurrentSessionId None).

(** A chunk whose first function call is [generate_image]. *)
Definition isImageCall (chunk : StreamChunk) : bool :=
  match functionCalls chunk with
  | Some (call :: _) => bool_decide (callName call = Some generateImageName)
  | _ => false
  end.

(** [c.text || ''] *)
Definition chunkContribution (chunk : StreamChunk) : jstring :=
  default [] (chunkText chunk).

(** The text the chunks contribute, in order, up to the first image call. *)
Fixpoint textContribution (chunks : list StreamChunk) : jstring :=
  match chunks with
  | [] => []
  | chunk :: rest =>
      if isImageCall chunk then []
      else chunkContribution chunk ++ textContribution rest
  end.

(** "The turn sent from [st] and cancelled once the chunks [chunks] have been
    applied ends with the concatenation of their texts as the text of the
    assistant message, with no error flag on it, and with the loading flag
    down."  [rest] is what happens from the moment the last of these chunks
    has been handed to the loop. *)
Definition cancelledWithPartialText (generateImage : jstring -> ImageExchange)
    (clk : TurnClock) (text : jstring) (attachment : option Attachment)
    (chunks : list StreamChunk) (rest : list event) (fin : streamEnd)
    (st : HookState) : Prop :=
  exists st',
    sendMessage generateImage clk text attachment false
      ((ChunkArrives <$> chunks) ++ rest) fin st = Some st'
    /\ (exists m, last (messages st') = Some m
          /\ Message.text m = concat (chunkContribution <$> chunks)
          /\ Message.isError m = None)
    /\ isLoading st' = false.

(** "The history [after] is [before] with one assistant error message of
    text [t] appended." *)
Definition appendsErrorMessage (before after : list Message.t) (t : jstring) : Prop :=
  exists m, after = before ++ [m]
    /\ Message.sender m = Model
    /\ Message.isError m = Some true
    /\ Message.text m = t.

(** "Run without cancellation over [chunks], the turn ends with the text
    contribution of the chunks as the text of the last message." *)
Definition finalTextIsContribution (generateImage : jstring -> ImageExchange)
    (clk : TurnClock) (text : jstring) (attachment : option Attachment)
    (chunks : list StreamChunk) (st : HookState) : Prop :=
  exists st',
    sendMessage generateImage clk text attachment false
      (ChunkArrives <$> chunks) StreamDone st = Some st'
    /\ Message.text <$> last (messages st') = Some (textContribution chunks).

(** "The turn sent from [st], failing on a quota error, ends with the quota
    message appended to the history it had when the request was issued, and
    with the loading flag down." *)
Definition quotaFailureAppended (generateImage : jstring -> ImageExchange)
    (clk : TurnClock) (text : jstring) (attachment : option Attachment)
    (isImageGen : bool) (evs : list event) (fin : streamEnd) (st : HookState) : Prop :=
  exists T st1 st',
    sendMessage_begin clk text attachment isImageGen st = Some (T, st1)
    /\ sendMessage generateImage clk text attachment isImageGen evs fin st = Some st'
    /\ appendsErrorMessage (messages st1) (messages st') quotaMessage
    /\ isLoading st' = false.

(** The image of a reply of the image service: the last inline data among
    its parts; and its caption: the texts of the parts without inline data,
    in order. *)
Definition lastInlineData (parts : list Part) : option (jstring * jstring) :=
  last (omap inlineData parts).

Definition partsText (parts : list Part) : jstring :=
  concat (omap (fun part =>
                  match inlineData part with
                  | Some _ => None
                  | None => truthyString (partText part)
                  end) parts).

(** What an exchange with the image service leaves of the placeholder [p]
    of the turn when the turn is not cancelled. *)
Definition imageOutcome (ex : ImageExchange) (p : Message.t) : Message.t :=
  match imageResult ex with
  | ImageResponse candidateParts =>
      match lastInlineData (default [] candidateParts) with
      | Some (mime, d) =>
          Message.withTextAttachment
            (if truthy (partsText (default [] candidateParts))
             then partsText (default [] candidateParts) else imageReadyCaption)
            (mkAttachment (freshObject ex) mime d None) p
      | None => Message.withTextError imageFailedCaption p
      end
  | ImageFailure err => Message.withTextError (getFriendlyErrorMessage err) p
  end.

(** "From [s0] to [s] the session collection and the current session are
    unchanged, the controller of the turn is still the active one, and no
    other controller has been aborted or reset." *)
Definition turnFrame (T : Turn) (s0 s : HookState) : Prop :=
  sessions s = sessions s0
  /\ currentSessionId s = currentSessionId s0
  /\ abortControllerRef s = abortControllerRef s0
  /\ length (messages s) = length (messages s0)
  /\ forall c, Some c <> abortControllerRef s0 -> signals s !! c = signals s0 !! c.

(** The part of [historyOf] that selects the messages sent as history. *)
Definition sentAsHistory (m : Message.t) : Prop :=
  Message.isError m <> Some true
  /\ (isBlank (Message.text m) = false \/ Message.attachment m <> None).

(** ** Sample data for concrete runs *)

Definition helloUser : Message.t :=
  Message.mk (utf16 "1700000000001") User (utf16 "Hello") 1700000000001 None None.

Definition hiBot : Message.t :=
  Message.mk (utf16 "1700000000002") Model (utf16 "Hi there") 1700000000002 None None.

Definition olderSession : ChatSession.t :=
  ChatSession.mk (utf16 "1600000000000") (utf16 "Older") [helloUser] 1600000000005.

Definition helloSession : ChatSession.t :=
  ChatSession.mk (utf16 "1700000000000") (utf16 "Hello") [helloUser; hiBot] 1700000000009.

(** A state in which [helloSession] is open and a turn is in flight. *)
Definition busyState : HookState :=
  mkState [helloUser; hiBot] [helloSession; olderSession]
    (Some (utf16 "1700000000000")) true Gemini3FlashPreview
    (Some (createChatSession Gemini3FlashPreview [])) (Some 0%nat) [false].

(** A state in which the reply of the open session is still streaming: the
    live list is ahead of the stored copy. *)
Definition streamingState : HookState :=
  mkState [helloUser; Message.withText (utf16 "Hi there, how") hiBot]
    [helloSession; olderSession]
    (Some (utf16 "1700000000000")) true Gemini3FlashPreview
    (Some (createChatSession Gemini3FlashPreview [])) (Some 0%nat) [false].

(** No session is open, nothing is in flight, two sessions are stored. *)
Definition idleState : HookState :=
  mkState [] [helloSession; olderSession] None false Gemini3FlashPreview
    None None [true].

Definition sampleClock : TurnClock :=
  mkTurnClock 1700000001000 1700000001000 1700000001000 1700000001000
    1700000001000 1700000001001 1700000009000 1700000009000.

(** A codec for the concrete runs, given by a finite table: a stored text
    that is in the table parses to its entry, any other text is malformed. *)
Definition tableCodec (table : list (jstring * list ChatSession.t)) : StorageCodec :=
  {| parseSessions := fun s =>
       snd <$> (snd <$> list_find (fun e => e.1 = s) table);
     stringifySessions := fun l =>
       default [] (fst <$> (snd <$> list_find (fun e => e.2 = l) table)) |}.

Definition sampleCodec : StorageCodec :=
  tableCodec [(utf16 "[]", []);
              (utf16 "[older,hello]", [olderSession; helloSession])].

(** Stored data of three users: an empty array, two sessions (the older one
    first), and a text that does not parse. *)
Definition sampleStorage : gmap (list N) (list N) :=
  {[ storageKey (utf16 "new@kite.vn") := utf16 "[]";
     storageKey (utf16 "an@kite.vn") := utf16 "[older,hello]";
     storageKey (utf16 "binh@kite.vn") := utf16 "{oops" ]}.

Definition longQuestion : jstring :=
  utf16 "Please summarise the attached quarterly report".

Definition photo : Attachment :=
  mkAttachment 7 (utf16 "image/png") (utf16 "iVBORw0KGgo=") (Some (utf16 "cat.png")).

Definition textChunk (s : string) : StreamChunk := mkChunk None (Some (utf16 s)).

Definition imageCallChunk (prompt : string) : StreamChunk :=
  mkChunk (Some [mkFunctionCall (Some generateImageName) (Some (Some (utf16 prompt)))])
    None.

(** An image service that answers with a picture and no caption, and one
    that is out of quota. *)
Definition pictureService (prompt : jstring) : ImageExchange :=
  mkImageExchange false
    (ImageResponse (Some [mkPart (Some (utf16 "image/png", utf16 "iVBORw0KGgo=")) None]))
    11.

(** The error of a rate-limited request.  Its JSON text is
    [{"name":"ApiError","status":429}], a double quote being code unit 34. *)
Definition quotaError : JsError :=
  mkJsError (Some 429) None (utf16 "ApiError")
    (utf16 "{" ++ [34%N] ++ utf16 "name" ++ [34%N] ++ utf16 ":"
     ++ [34%N] ++ utf16 "ApiError" ++ [34%N] ++ utf16 ","
     ++ [34%N] ++ utf16 "status" ++ [34%N] ++ utf16 ":429}").

Definition exhaustedService (prompt : jstring) : ImageExchange :=
  mkImageExchange false (ImageFailure quotaError) 11.

(** Lower-casing of the letters A to Z, for the concrete runs on ASCII
    texts. *)
Definition asciiCasing : Casing :=
  {| toLowerCase := map (fun c => if ((65 <=? c) && (c <=? 90))%N then (c + 32)%N else c) |}.

(** A codec for the concrete runs that reads back the collection of
    [idleState] from the text it writes for it. *)
Definition helloOlderCodec : StorageCodec :=
  tableCodec [(utf16 "[hello,older]", [helloSession; olderSession])].

(** A [generate_image] call that carries no arguments, and a turn that
    belongs to another conversation than the one on screen. *)
Definition bareImageCallChunk : StreamChunk :=
  mkChunk (Some [mkFunctionCall (Some generateImageName) None]) None.

Definition strayTurn : Turn := mkTurn 0 (utf16 "1699999999999") (utf16 "Hi") Gemini3FlashPreview.

(** A form and a picked file for the concrete runs. *)
Definition goodForm : LoginForm :=
  mkLoginForm (utf16 "An.Nguyen@Gmail.com") (utf16 "correct horse") None false.

Definition notesFile : FileInfo := mkFileInfo [] (utf16 "Notes.TXT").

Definition catFile : FileInfo := mkFileInfo (utf16 "image/png") (utf16 "cat.png").

Definition emptyInput : InputState := mkInputState [] None None None false false.

(** An image service whose request is still pending when the user presses
    the stop button. *)
Definition pendingService (prompt : jstring) : ImageExchange :=
  mkImageExchange true (imageResult (pictureService prompt)) 11.

(** A collection whose first session was stored while the system clock was
    ahead of the clock of the sample turn; no session is open. *)
Definition aheadSession : ChatSession.t :=
  ChatSession.mk (utf16 "1800000000000") (utf16 "Ahead") [helloUser] 1800000000005.

Definition aheadState : HookState :=
  mkState [] [aheadSession; olderSession] None false Gemini3FlashPreview None None [].

(** What runs behind the login screen after a logout in the middle of a
    turn: the stream of the turn fails, its cleanup runs, and the sync
    effect sees the new live list. *)
Definition behindLoginScreen : list backgroundEvent :=
  [CatchRuns sampleClock strayTurn quotaError; FinallyRuns strayTurn;
   SyncRuns 1700000002000; InitChatRuns].

(** * Verification *)

(** ** Basic facts *)

Section Sorting.

Implicit Types (x y : ChatSession.t) (l : list ChatSession.t).

Lemma newestFirst_nil : newestFirst [].
Proof. intros i a b H. rewrite lookup_nil in H. discriminate. Qed.

Lemma newestFirst_singleton x : newestFirst [x].
Proof. intros i a b _ H. destruct i; simpl in H; discriminate. Qed.

Lemma newestFirst_cons x y l :
  newestFirst (x :: y :: l) <->
  ChatSession.updatedAt y <= ChatSession.updatedAt x /\ newestFirst (y :: l).
Proof.
  split.
  - intros H. split.
    + apply (H 0%nat x y); reflexivity.
    + intros i a b Ha Hb. apply (H (S i) a b); assumption.
  - intros [Hxy H] [|i] a b Ha Hb.
    + simpl in Ha, Hb. congruence.
    + apply (H i a b); assumption.
Qed.

Lemma newestFirst_tail x l : newestFirst (x :: l) -> newestFirst l.
Proof.
  destruct l as [|y l]; [intros _; apply newestFirst_nil|].
  intros H. apply newestFirst_cons in H. tauto.
Qed.

Lemma insertNewestFirst_sorted x l :
  newestFirst l -> newestFirst (insertNewestFirst x l).
Proof.
  induction l as [|y l IH]; intros Hl; simpl.
  - apply newestFirst_singleton.
  - destruct (Z.leb_spec (ChatSession.updatedAt y) (ChatSession.updatedAt x)) as [Hle|Hgt].
    + apply newestFirst_cons. split; assumption.
    + specialize (IH (newestFirst_tail _ _ Hl)).
      destruct l as [|z l]; simpl in *.
      * apply newestFirst_cons. split; [lia|apply newestFirst_singleton].
      * apply newestFirst_cons in Hl. destruct Hl as [Hzy Hl].
        destruct (Z.leb_spec (ChatSession.updatedAt z) (ChatSession.updatedAt x)).
        -- apply newestFirst_cons. split; [lia|assumption].
        -- apply newestFirst_cons. split; assumption.
Qed.

Lemma sortNewestFirst_sorted l : newestFirst (sortNewestFirst l).
Proof.
  induction l as [|x l IH]; simpl.
  - apply newestFirst_nil.
  - apply insertNewestFirst_sorted, IH.
Qed.

Lemma insertNewestFirst_perm x l : insertNewestFirst x l ≡ₚ x :: l.
Proof.
  induction l as [|y l IH]; simpl; [reflexivity|].
  destruct (ChatSession.updatedAt y <=? ChatSession.updatedAt x); [reflexivity|].
  rewrite IH. apply perm_swap.
Qed.

Lemma sortNewestFirst_perm l : sortNewestFirst l ≡ₚ l.
Proof.
  induction l as [|x l IH]; simpl; [reflexivity|].
  rewrite insertNewestFirst_perm, IH. reflexivity.
Qed.

(** The sort is stable: sessions with the same [updatedAt] keep their order. *)
Lemma insertNewestFirst_stable (k : Z) x l :
  newestFirst l ->
  filter (fun s => ChatSession.updatedAt s = k) (insertNewestFirst x l)
  = filter (fun s => ChatSession.updatedAt s = k) (x :: l).
Proof.
  induction l as [|y l IH]; intros Hl; simpl; [reflexivity|].
  destruct (Z.leb_spec (ChatSession.updatedAt y) (ChatSession.updatedAt x)) as [Hle|Hgt];
    [reflexivity|].
  rewrite (filter_cons _ y (insertNewestFirst x l)), IH
    by (eapply newestFirst_tail; eassumption).
  rewrite !filter_cons.
  destruct (decide (ChatSession.updatedAt y = k)), (decide (ChatSession.updatedAt x = k));
    try reflexivity.
  lia.
Qed.

Lemma sortNewestFirst_stable (k : Z) l :
  filter (fun s => ChatSession.updatedAt s = k) (sortNewestFirst l)
  = filter (fun s => ChatSession.updatedAt s = k) l.
Proof.
  induction l as [|x l IH]; simpl; [reflexivity|].
  rewrite insertNewestFirst_stable by apply sortNewestFirst_sorted.
  rewrite !filter_cons, IH. reflexivity.
Qed.

End Sorting.

(** ** stopGeneration and deleteSession *)

Lemma applyUpdates_app us1 us2 st :
  applyUpdates (us1 ++ us2) st = applyUpdates us2 (applyUpdates us1 st).
Proof. unfold applyUpdates. apply foldl_app. Qed.

Lemma startNewChat_fresh b st :
  currentSessionId (startNewChat b st) = None
  /\ chatSessionRef (startNewChat b st) = None
  /\ abortControllerRef (startNewChat b st) = None
  /\ sessions (startNewChat b st) = sessions st
  /\ isLoading (startNewChat b st) = isLoading st
  /\ signals (startNewChat b st) = signals st
  /\ messages (startNewChat b st) = (if b then [] else messages st).
Proof. destruct b; repeat split; reflexivity. Qed.

Lemma stopGeneration_fields st :
  messages (stopGeneration st) = messages st
  /\ isLoading (stopGeneration st) = false
  /\ signals (stopGeneration st)
     = match abortControllerRef st with
       | Some active => <[active := true]> (signals st)
       | None => signals st
       end.
Proof.
  unfold stopGeneration. destruct (abortControllerRef st); repeat split; reflexivity.
Qed.

(** A controller that was allocated and is the active one is aborted by
    [stopGeneration]. *)
Lemma stopGeneration_aborts st c :
  abortControllerRef st = Some c -> (c < length (signals st))%nat ->
  aborted c (stopGeneration st) = true.
Proof.
  intros Hc Hlt. unfold stopGeneration, aborted. rewrite Hc. simpl.
  apply bool_decide_eq_true. apply list_lookup_insert_eq. assumption.
Qed.

(** C10: in any state, [stopGeneration] sets the loading flag to false and
    leaves the live message list, the session collection and the current
    session id as they were; it raises the abort flag of the controller the
    ref points to, if there is one, and does not clear the ref. *)
Theorem stopGeneration_frame (st : HookState) :
  isLoading (stopGeneration st) = false
  /\ messages (stopGeneration st) = messages st
  /\ sessions (stopGeneration st) = sessions st
  /\ currentSessionId (stopGeneration st) = currentSessionId st
  /\ abortControllerRef (stopGeneration st) = abortControllerRef st
  /\ chatSessionRef (stopGeneration st) = chatSessionRef st
  /\ signals (stopGeneration st)
     = match abortControllerRef st with
       | Some active => <[active := true]> (signals st)
       | None => signals st
       end.
Proof.
  unfold stopGeneration. destruct (abortControllerRef st) eqn:E; simpl;
    rewrite ?E; repeat split; reflexivity.
Qed.

(** C7: deleting a session removes the sessions with that id and no other;
    when it is the current one the hook is back in the fresh-conversation
    state (no current id, empty live list, no backend context), and
    otherwise the live list and the current id are untouched. *)
Theorem deleteSession_spec (st : HookState) (sessionId : jstring) :
  sessions (deleteSession sessionId st)
  = filter (fun s => ChatSession.id s <> sessionId) (sessions st)
  /\ (forall s, s ∈ sessions (deleteSession sessionId st)
                <-> s ∈ sessions st /\ ChatSession.id s <> sessionId)
  /\ (currentSessionId st = Some sessionId ->
        currentSessionId (deleteSession sessionId st) = None
        /\ messages (deleteSession sessionId st) = []
        /\ chatSessionRef (deleteSession sessionId st) = None
        /\ abortControllerRef (deleteSession sessionId st) = None)
  /\ (currentSessionId st <> Some sessionId ->
        currentSessionId (deleteSession sessionId st) = currentSessionId st
        /\ messages (deleteSession sessionId st) = messages st
        /\ chatSessionRef (deleteSession sessionId st) = chatSessionRef st
        /\ abortControllerRef (deleteSession sessionId st) = abortControllerRef st).
Proof.
  assert (Hs : sessions (deleteSession sessionId st)
               = filter (fun s => ChatSession.id s <> sessionId) (sessions st)).
  { unfold deleteSession, deleteSession_updates. case_bool_decide; reflexivity. }
  split; [exact Hs|]. split.
  { intros s. rewrite Hs, list_elem_of_filter. tauto. }
  unfold deleteSession, deleteSession_updates. split; intros Hcur.
  - rewrite bool_decide_eq_true_2 by congruence. repeat split; reflexivity.
  - rewrite bool_decide_eq_false_2 by congruence. repeat split; reflexivity.
Qed.

Lemma deleteSession_spec_witness :
  sessions (deleteSession (utf16 "1700000000000") busyState) = [olderSession]
  /\ messages (deleteSession (utf16 "1700000000000") busyState) = []
  /\ currentSessionId (deleteSession (utf16 "1700000000000") busyState) = None
  /\ sessions (deleteSession (utf16 "1600000000000") busyState) = [helloSession]
  /\ messages (deleteSession (utf16 "1600000000000") busyState) = [helloUser; hiBot].
Proof.
  destruct (deleteSession_spec busyState (utf16 "1700000000000")) as (H1 & _ & H2 & _).
  destruct (deleteSession_spec busyState (utf16 "1600000000000")) as (H3 & _ & _ & H4).
  destruct (H2 eq_refl) as (Hc & Hm & _).
  destruct H4 as (_ & Hm' & _); [vm_compute; discriminate|].
  rewrite H1, H3, Hc, Hm, Hm'. repeat split; reflexivity.
Defined.

(** ** The sync effect *)

Lemma sameAttachment_refl a : sameAttachment a a = true.
Proof. destruct a; simpl; [apply bool_decide_eq_true|]; reflexivity. Qed.

Lemma sameAsStored_refl (l : list Message.t) : l <> [] -> sameAsStored l l = true.
Proof.
  intros Hne. unfold sameAsStored.
  destruct (last l) as [m|] eqn:E.
  - rewrite !bool_decide_eq_true_2 by reflexivity.
    rewrite sameAttachment_refl. reflexivity.
  - apply last_None in E. contradiction.
Qed.

Lemma sessionIds_insert_same (l : list ChatSession.t) i s s' :
  l !! i = Some s -> ChatSession.id s' = ChatSession.id s ->
  sessionIds (<[i := s']> l) = sessionIds l.
Proof.
  intros Hi Hid. unfold sessionIds. rewrite list_fmap_insert, Hid.
  apply list_insert_id. rewrite list_lookup_fmap, Hi. reflexivity.
Qed.

Lemma unique_by_id (l : list ChatSession.t) x y :
  NoDup (sessionIds l) -> x ∈ l -> y ∈ l ->
  ChatSession.id x = ChatSession.id y -> x = y.
Proof.
  unfold sessionIds. induction l as [|z l IH]; intros Hnd Hx Hy Hid.
  - inversion Hx.
  - rewrite fmap_cons in Hnd. apply NoDup_cons in Hnd. destruct Hnd as [Hz Hnd].
    apply elem_of_cons in Hx. apply elem_of_cons in Hy.
    destruct Hx as [->|Hx], Hy as [->|Hy]; auto.
    + exfalso. apply Hz. rewrite Hid. apply list_elem_of_fmap. eauto.
    + exfalso. apply Hz. rewrite <- Hid. apply list_elem_of_fmap. eauto.
Qed.

Lemma sameAttachment_trans a b c :
  sameAttachment a b = true -> sameAttachment b c = true -> sameAttachment a c = true.
Proof.
  destruct a, b, c; simpl; try discriminate; try reflexivity.
  rewrite !bool_decide_eq_true. congruence.
Qed.

Lemma sameAsStored_trans (l1 l2 l3 : list Message.t) :
  sameAsStored l1 l2 = true -> sameAsStored l2 l3 = true -> sameAsStored l1 l3 = true.
Proof.
  unfold sameAsStored.
  destruct (last l1) as [m1|], (last l2) as [m2|], (last l3) as [m3|];
    rewrite ?andb_false_r; try discriminate.
  rewrite !andb_true_iff, !bool_decide_eq_true.
  intros (Hl & ((Hi & Ht) & He) & Ha) (Hl' & ((Hi' & Ht') & He') & Ha').
  repeat split; try congruence.
  eapply sameAttachment_trans; eassumption.
Qed.

Lemma sameAsStored_nonempty (stored live : list Message.t) :
  sameAsStored stored live = true -> stored <> [] /\ live <> [].
Proof.
  unfold sameAsStored. intros H. apply andb_true_iff in H. destruct H as [_ H].
  split; intros ->; simpl in H; [discriminate|].
  destruct (last stored); discriminate.
Qed.

(** Once the stored copy of the current session agrees with the live list
    on what the dirty check compares, the updater hands back the array it
    was given. *)
Lemma syncUpdater_settled now cur live l s :
  NoDup (sessionIds l) -> s ∈ l -> ChatSession.id s = cur ->
  sameAsStored (ChatSession.messages s) live = true ->
  syncUpdater now cur live l = KeepPrev.
Proof.
  intros Hnd Hs Hid Hsame. unfold syncUpdater.
  destruct (list_find _ l) as [[j x]|] eqn:Hfind; [|reflexivity].
  apply list_find_Some in Hfind. destruct Hfind as (Hj & Hx & _).
  assert (x = s) as ->.
  { eapply unique_by_id; eauto.
    - eapply list_elem_of_lookup_2; eassumption.
    - congruence. }
  rewrite Hsame. reflexivity.
Qed.

(** C6: the sync effect is idempotent.  With session ids unique, a second
    run of the effect, over a live list that is the same or differs in
    nothing the dirty check compares (length, and id, text, error flag and
    attachment object of the last message), hands back the very array it was
    given ([KeepPrev]): the collection, and with it the [updatedAt] of the
    current session, is as the first run left it. *)
Theorem syncEffect_idempotent (st : HookState) (now1 now2 : Z)
    (live : list Message.t) :
  NoDup (sessionIds (sessions st)) ->
  live = messages st \/ sameAsStored (messages st) live = true ->
  syncOutcome now2 (applyUpdate (syncEffect now1 st) (SetMessages live)) = KeepPrev
  /\ sessions (syncEffect now2 (applyUpdate (syncEffect now1 st) (SetMessages live)))
     = sessions (syncEffect now1 st).
Proof.
  intros Hnd Hlive.
  assert (H : syncOutcome now2 (applyUpdate (syncEffect now1 st) (SetMessages live))
              = KeepPrev);
    [|split; [exact H|]; unfold syncEffect at 1; rewrite H; reflexivity].
  assert (Hsame : messages st <> [] -> sameAsStored (messages st) live = true).
  { intros Hne. destruct Hlive as [->|Hs]; [apply sameAsStored_refl, Hne|exact Hs]. }
  assert (Hempty : messages st = [] -> live = []).
  { intros Hnil. destruct Hlive as [->|Hs]; [exact Hnil|].
    apply sameAsStored_nonempty in Hs. rewrite Hnil in Hs. destruct Hs as [[] _].
    reflexivity. }
  assert (Hpos : forall l : list Message.t, l <> [] <-> (0 < length l)%nat).
  { intros [|m l]; simpl; split; intros; try congruence; lia. }
  unfold syncEffect. destruct (syncOutcome now1 st) as [|v] eqn:E1;
    unfold syncOutcome in E1 |- *;
    cbn [applyUpdate currentSessionId messages sessions];
    destruct (truthyString (currentSessionId st)) as [cur|]; try reflexivity;
    try discriminate;
    destruct (bool_decide (0 < length live)%nat) eqn:Hlive'; try reflexivity;
    apply bool_decide_eq_true, Hpos in Hlive';
    (assert (Hne : messages st <> [])
      by (intros Hnil; apply Hlive', Hempty, Hnil));
    rewrite bool_decide_eq_true_2 in E1 by (apply Hpos, Hne);
    specialize (Hsame Hne); unfold syncUpdater in E1.
  - unfold syncUpdater.
    destruct (list_find _ (sessions st)) as [[i s]|]; [|reflexivity].
    destruct (sameAsStored (ChatSession.messages s) (messages st)) eqn:Es;
      [|discriminate].
    rewrite (sameAsStored_trans _ _ _ Es Hsame). reflexivity.
  - destruct (list_find _ (sessions st)) as [[i s]|] eqn:Hfind; [|discriminate].
    destruct (sameAsStored _ (messages st)); [discriminate|].
    injection E1 as <-.
    apply list_find_Some in Hfind. destruct Hfind as (Hi & Hid & _).
    eapply syncUpdater_settled with
      (s := ChatSession.mk (ChatSession.id s)
              (deriveTitle (ChatSession.title s) (messages st)) (messages st) now1).
    + unfold sessionIds. rewrite sortNewestFirst_perm.
      fold (sessionIds (<[i := ChatSession.mk (ChatSession.id s)
              (deriveTitle (ChatSession.title s) (messages st)) (messages st) now1]>
              (sessions st))).
      erewrite sessionIds_insert_same; eauto.
    + rewrite sortNewestFirst_perm.
      eapply list_elem_of_lookup_2. apply list_lookup_insert_eq.
      eapply lookup_lt_Some; eassumption.
    + exact Hid.
    + exact Hsame.
Qed.

Lemma syncEffect_idempotent_witness :
  NoDup (sessionIds (sessions streamingState))
  /\ syncOutcome 1700000000600
       (applyUpdate (syncEffect 1700000000500 streamingState)
          (SetMessages (messages streamingState))) = KeepPrev
  /\ ChatSession.updatedAt <$>
       sessions (syncEffect 1700000000600
                   (applyUpdate (syncEffect 1700000000500 streamingState)
                      (SetMessages (messages streamingState))))
     = [1700000000500; 1600000000005].
Proof.
  assert (Hnd : NoDup (sessionIds (sessions streamingState))).
  { apply (bool_decide_unpack _). vm_compute. exact I. }
  split; [exact Hnd|].
  destruct (syncEffect_idempotent streamingState 1700000000500 1700000000600
              (messages streamingState) Hnd (or_introl eq_refl)) as [Hkeep Hsess].
  split; [exact Hkeep|]. rewrite Hsess. vm_compute. reflexivity.
Defined.

(** ** The start of a turn *)

Lemma sendMessage_begin_Some clk text attachment isImageGen st T st1 :
  sendMessage_begin clk text attachment isImageGen st = Some (T, st1) ->
  T = mkTurn (length (signals st)) (ofZ (botMsgNow clk + 1)) text (currentModel st)
  /\ messages st1
     = messages st ++ [userMessageOf clk text attachment; placeholderOf clk isImageGen]
  /\ isLoading st1 = true
  /\ abortControllerRef st1 = Some (length (signals st))
  /\ signals st1 = signals st ++ [false]
  /\ sessions st1
     = match truthyString (currentSessionId st) with
       | Some _ => sessions st
       | None => newSessionOf clk text attachment st :: sessions st
       end
  /\ currentSessionId st1
     = match truthyString (currentSessionId st) with
       | Some _ => currentSessionId st
       | None => Some (ofZ (sessionIdNow clk))
       end.
Proof.
  unfold sendMessage_begin.
  destruct (isBlank text && bool_decide (attachment = None)); [discriminate|].
  simpl. intros [= <- <-].
  destruct (truthyString (currentSessionId st)) eqn:E, isImageGen,
    (chatSessionRef st) eqn:E'; simpl; rewrite ?E'; simpl;
    rewrite <- ?app_assoc; repeat split; reflexivity.
Qed.

Lemma sendMessage_begin_accepts clk text attachment isImageGen st :
  isBlank text && bool_decide (attachment = None) = false ->
  exists T st1, sendMessage_begin clk text attachment isImageGen st = Some (T, st1).
Proof.
  intros H. unfold sendMessage_begin. rewrite H. simpl. eauto.
Qed.

(** ** The load effect *)

Lemma loadEffect_state `{codec : StorageCodec} userEmail localStorage st :
  messages (loadEffect userEmail localStorage st) = []
  /\ currentSessionId (loadEffect userEmail localStorage st) = None
  /\ sessions (loadEffect userEmail localStorage st)
     = match truthyString userEmail with
       | Some email =>
           match truthyString (localStorage !! storageKey email) with
           | Some stored =>
               match parseSessions stored with
               | Some parsedSessions => sortNewestFirst parsedSessions
               | None => sessions st
               end
           | None => []
           end
       | None => []
       end.
Proof.
  unfold loadEffect, loadEffect_updates.
  destruct (truthyString userEmail) as [email|]; [|repeat split; reflexivity].
  destruct (truthyString (localStorage !! storageKey email)) as [stored|];
    [|repeat split; reflexivity].
  destruct (parseSessions stored); repeat split; reflexivity.
Qed.

(** ** The order of the session collection *)

Lemma syncEffect_sessions now st :
  sessions (syncEffect now st)
  = match syncOutcome now st with
    | KeepPrev => sessions st
    | NewValue v => v
    end.
Proof. unfold syncEffect. destruct (syncOutcome now st); reflexivity. Qed.

Lemma syncOutcome_sorted now st v :
  syncOutcome now st = NewValue v -> newestFirst v.
Proof.
  unfold syncOutcome, syncUpdater.
  destruct (truthyString (currentSessionId st)); [|discriminate].
  case_bool_decide; [|discriminate].
  destruct (list_find _ _) as [[i s]|]; [|discriminate].
  destruct (sameAsStored _ _); [discriminate|].
  intros [= <-]. apply sortNewestFirst_sorted.
Qed.

(** The load effect and the sync effect leave the collection in descending
    order of [updatedAt]: both sort what they write, and what they do not
    write stays as it was. *)
Lemma load_and_sync_keep_order `{codec : StorageCodec} (st : HookState) :
  newestFirst (sessions st) ->
  (forall userEmail localStorage,
      newestFirst (sessions (loadEffect userEmail localStorage st)))
  /\ (forall now, newestFirst (sessions (syncEffect now st))).
Proof.
  intros Hsorted. split.
  - intros userEmail localStorage.
    destruct (loadEffect_state userEmail localStorage st) as (_ & _ & ->).
    destruct (truthyString userEmail) as [email|]; [|apply newestFirst_nil].
    destruct (truthyString (localStorage !! storageKey email)) as [stored|];
      [|apply newestFirst_nil].
    destruct (parseSessions stored); [apply sortNewestFirst_sorted|exact Hsorted].
  - intros now. rewrite syncEffect_sessions.
    destruct (syncOutcome now st) eqn:E; [exact Hsorted|].
    eapply syncOutcome_sorted; eassumption.
Qed.

(** The creation of a session by [sendMessage] prepends it and does not
    sort: the collection is in order after it exactly when its first
    session, if there is one, is not dated after the new one. *)
Lemma creation_order_iff clk text attachment isImageGen st T st1 :
  sendMessage_begin clk text attachment isImageGen st = Some (T, st1) ->
  truthyString (currentSessionId st) = None ->
  newestFirst (sessions st) ->
  sessions st1 = newSessionOf clk text attachment st :: sessions st
  /\ (newestFirst (sessions st1) <->
      forall s, head (sessions st) = Some s ->
        ChatSession.updatedAt s <= sessionUpdatedNow clk).
Proof.
  intros Hbegin Hnone Hsorted.
  apply sendMessage_begin_Some in Hbegin.
  destruct Hbegin as (_ & _ & _ & _ & _ & -> & _). rewrite Hnone.
  split; [reflexivity|].
  destruct (sessions st) as [|s l].
  - split; [intros _ s [=]|intros _; apply newestFirst_singleton].
  - rewrite newestFirst_cons. simpl. split.
    + intros [H _] s' [= <-]. exact H.
    + intros H. split; [apply H; reflexivity|exact Hsorted].
Qed.

(** C9: a collection in descending order of [updatedAt] whose first session
    is dated after the clock of the turn is out of order once [sendMessage]
    has created a session: the new session is prepended, not sorted in.  The
    sync effect that follows sorts the collection again, as the load effect
    would. *)
Theorem creation_breaks_order :
  newestFirst (sessions aheadState)
  /\ (exists T st1,
        sendMessage_begin sampleClock (utf16 "Hi") None false aheadState = Some (T, st1)
        /\ ChatSession.updatedAt <$> sessions st1
           = [1700000001000; 1800000000005; 1600000000005]
        /\ ~ newestFirst (sessions st1)
        /\ ChatSession.updatedAt <$> sessions (syncEffect 1700000001002 st1)
           = [1800000000005; 1700000001002; 1600000000005]
        /\ newestFirst (sessions (syncEffect 1700000001002 st1))).
Proof.
  assert (Hs : newestFirst (sessions aheadState)).
  { apply newestFirst_cons. split; [vm_compute; discriminate|apply newestFirst_singleton]. }
  split; [exact Hs|].
  destruct (sendMessage_begin sampleClock (utf16 "Hi") None false aheadState)
    as [[T st1]|] eqn:E; [|vm_compute in E; discriminate].
  exists T, st1. split; [reflexivity|].
  destruct (creation_order_iff _ _ _ _ _ _ _ E eq_refl Hs) as [Hhead Hiff].
  assert (Hsync : ChatSession.updatedAt <$> sessions (syncEffect 1700000001002 st1)
                  = [1800000000005; 1700000001002; 1600000000005]).
  { vm_compute in E. injection E as <- <-. vm_compute. reflexivity. }
  split; [rewrite Hhead; reflexivity|]. split; [|split; [exact Hsync|]].
  - intros Hbad. pose proof (proj1 Hiff Hbad aheadSession eq_refl) as Hle.
    vm_compute in Hle. apply Hle. reflexivity.
  - rewrite syncEffect_sessions in Hsync |- *.
    destruct (syncOutcome 1700000001002 st1) as [|v] eqn:Ev.
    + rewrite Hhead in Hsync. vm_compute in Hsync. discriminate.
    + eapply syncOutcome_sorted. exact Ev.
Qed.

(** ** Title derivation *)

(** The derivation of the sync effect, on a default title: the first 30 code
    units of the first user message, with the ellipsis when it is longer. *)
Lemma deriveTitle_default (live : list Message.t) i m :
  list_find (fun m => Message.sender m = User) live = Some (i, m) ->
  deriveTitle defaultTitle live
  = take 30 (Message.text m)
    ++ (if bool_decide (30 < length (Message.text m))%nat then ellipsis else []).
Proof.
  intros Hfind. unfold deriveTitle.
  rewrite bool_decide_eq_true_2 by reflexivity.
  rewrite bool_decide_eq_true_2.
  - rewrite Hfind. reflexivity.
  - apply list_find_Some in Hfind. destruct Hfind as (Hi & _).
    apply lookup_lt_Some in Hi. lia.
Qed.

(** A title that is not the default one is never derived again. *)
Lemma deriveTitle_kept title live : title <> defaultTitle -> deriveTitle title live = title.
Proof. intros H. unfold deriveTitle. rewrite bool_decide_eq_false_2 by exact H. reflexivity. Qed.

(** The title seeded by [sendMessage] for a first message longer than 30
    code units is its plain prefix, which the sync effect never touches
    again. *)
Lemma created_title_plain_prefix clk text attachment isImageGen st T st1 :
  sendMessage_begin clk text attachment isImageGen st = Some (T, st1) ->
  truthyString (currentSessionId st) = None ->
  (30 < length text)%nat ->
  ChatSession.title <$> head (sessions st1) = Some (take 30 text)
  /\ take 30 text <> take 30 text ++ ellipsis
  /\ forall live, deriveTitle (take 30 text) live = take 30 text.
Proof.
  intros Hbegin Hnone Hlong.
  apply sendMessage_begin_Some in Hbegin.
  destruct Hbegin as (_ & _ & _ & _ & _ & -> & _). rewrite Hnone.
  assert (Hlen : length (take 30 text) = 30%nat) by (rewrite length_take; lia).
  split; [|split].
  - unfold newSessionOf, slice0. simpl.
    destruct (take 30 text) eqn:E; [simpl in Hlen; lia|reflexivity].
  - intros Heq. apply (f_equal length) in Heq.
    rewrite length_app, Hlen in Heq. simpl in Heq. lia.
  - intros live. apply deriveTitle_kept. intros Heq.
    apply (f_equal length) in Heq. rewrite Hlen in Heq. vm_compute in Heq. lia.
Qed.

(** C1: the stored title of a session started with a first message of 46
    code units is its first 30 code units with no ellipsis, before and after
    the sync; and the session started with an attachment and an empty text
    has the default title only until the sync, which stores the empty
    title. *)
Theorem stored_title_after_first_message :
  length longQuestion = 46%nat
  /\ titlesAfterSendAndSync sampleClock longQuestion None 1700000001500 initialState
     = [utf16 "Please summarise the attached "]
  /\ take 30 longQuestion ++ ellipsis = utf16 "Please summarise the attached ..."
  /\ (ChatSession.title <$>
        match sendMessage_begin sampleClock [] (Some photo) false initialState with
        | Some (_, st1) => sessions st1
        | None => []
        end) = [defaultTitle]
  /\ titlesAfterSendAndSync sampleClock [] (Some photo) 1700000001500 initialState = [[]].
Proof. repeat split; vm_compute; reflexivity. Qed.

(** ** Switching identity *)

(** The [catch] branch of the load effect: a stored text that does not
    parse leaves the hook as [startNewChat(true)] alone leaves it, with the
    session collection not written. *)
Lemma loadEffect_malformed_keeps `{codec : StorageCodec} (st : HookState)
    (userEmail stored : jstring) (localStorage : gmap (list N) (list N)) :
  truthy userEmail = true ->
  localStorage !! storageKey userEmail = Some stored ->
  truthy stored = true ->
  parseSessions stored = None ->
  loadEffect (Some userEmail) localStorage st = startNewChat true st.
Proof.
  intros He Hget Hs Hparse. unfold loadEffect, loadEffect_updates.
  simpl. rewrite He, Hget. simpl. rewrite Hs, Hparse. reflexivity.
Qed.

(** C3, as stated: the load of the sessions of "an@kite.vn" writes the
    loaded array first and resets the live list and the current id after it,
    not before. *)
Lemma load_reset_not_before_sessions :
  ~ resetPrecedesSessions
      (loadEffect_updates (codec := sampleCodec) (Some (utf16 "an@kite.vn")) sampleStorage).
Proof.
  intros H.
  destruct (H 0%nat [helloSession; olderSession]) as (j & _ & Hj & _).
  - vm_compute. reflexivity.
  - discriminate.
  - lia.
Qed.

(** C3, amended: whatever the state before and whatever the new identity, the
    state the load effect leaves has an empty live list and no current
    session, and each write of the session array (the loaded sessions
    included) is followed in the same batch of updates by that reset, so the
    loaded sessions never show next to messages of the previous identity. *)
Theorem loadEffect_resets `{codec : StorageCodec} (st : HookState)
    (userEmail : option jstring) (localStorage : gmap (list N) (list N)) :
  messages (loadEffect userEmail localStorage st) = []
  /\ currentSessionId (loadEffect userEmail localStorage st) = None
  /\ chatSessionRef (loadEffect userEmail localStorage st)
     = match truthyString userEmail with
       | Some _ => None
       | None => chatSessionRef st
       end
  /\ resetFollowsSessions (loadEffect_updates userEmail localStorage).
Proof.
  destruct (loadEffect_state userEmail localStorage st) as (Hm & Hc & _).
  split; [exact Hm|]. split; [exact Hc|]. split.
  - unfold loadEffect, loadEffect_updates.
    destruct (truthyString userEmail) as [email|]; [|reflexivity].
    destruct (truthyString (localStorage !! storageKey email)) as [stored|];
      [|reflexivity].
    destruct (parseSessions stored); reflexivity.
  - unfold loadEffect_updates.
    destruct (truthyString userEmail) as [email|].
    + destruct (truthyString (localStorage !! storageKey email)) as [stored|];
        [destruct (parseSessions stored)|];
        intros [|[|[|[|[|i]]]]] v Hi; simpl in Hi; try discriminate;
        exists 2%nat, 1%nat; repeat split; lia.
    + intros [|[|[|i]]] v Hi; simpl in Hi; try discriminate.
      exists 1%nat, 2%nat. repeat split; lia.
Qed.

(** ** The chunk loop *)

Lemma withText_same (m : Message.t) : Message.withText (Message.text m) m = m.
Proof. destruct m; reflexivity. Qed.

Lemma setMessages_same st : applyUpdate st (SetMessages (messages st)) = st.
Proof. destruct st; reflexivity. Qed.

Lemma truthyString_contribution chunk :
  truthyString (chunkText chunk) = None -> chunkContribution chunk = [].
Proof.
  unfold chunkContribution. destruct (chunkText chunk) as [[|c t]|]; simpl;
    [reflexivity|discriminate|reflexivity].
Qed.

Lemma truthyString_Some o t : truthyString o = Some t -> o = Some t.
Proof.
  destruct o as [[|c s]|]; simpl; intros H; try discriminate; congruence.
Qed.

(** A chunk without image call appends its text to the placeholder when the
    placeholder is the last message. *)
Lemma chunkStep_text generateImage T chunk st pre m :
  isImageCall chunk = false ->
  messages st = pre ++ [m] ->
  Message.id m = botMsgId T ->
  chunkStep generateImage T chunk st
  = Continue (applyUpdate st (SetMessages
      (pre ++ [Message.withText (Message.text m ++ chunkContribution chunk) m]))).
Proof.
  intros Hcall Hmsgs Hid.
  assert (Happend :
    match truthyString (chunkText chunk) with
    | None => Continue st
    | Some t =>
        match appendChunkText (botMsgId T) t (messages st) with
        | Some ms => Continue (applyUpdate st (SetMessages ms))
        | None => Crash
        end
    end
    = Continue (applyUpdate st (SetMessages
        (pre ++ [Message.withText (Message.text m ++ chunkContribution chunk) m])))).
  { destruct (truthyString (chunkText chunk)) as [t|] eqn:E.
    - apply truthyString_Some in E. unfold chunkContribution. rewrite E. simpl.
      unfold appendChunkText. rewrite Hmsgs, last_snoc.
      rewrite bool_decide_eq_true_2 by exact Hid.
      rewrite length_app. simpl.
      replace (length pre + 1 - 1)%nat with (length pre) by lia.
      rewrite take_app_length. reflexivity.
    - rewrite (truthyString_contribution _ E), app_nil_r, withText_same, <- Hmsgs.
      rewrite setMessages_same. reflexivity. }
  unfold chunkStep. unfold isImageCall in Hcall.
  destruct (functionCalls chunk) as [[|call calls]|]; try exact Happend.
  rewrite Hcall. exact Happend.
Qed.

Lemma textContribution_plain chunks :
  Forall (fun c => isImageCall c = false) chunks ->
  textContribution chunks = concat (chunkContribution <$> chunks).
Proof.
  induction 1 as [|c cs Hc _ IH]; simpl; [reflexivity|].
  rewrite Hc, IH. reflexivity.
Qed.

(** The loop over a run of chunks without image call and without stop:
    their texts are appended in order and the loop goes on with what comes
    next. *)
Lemma consume_text_chunks generateImage T chunks rest :
  Forall (fun c => isImageCall c = false) chunks ->
  forall st pre m,
    messages st = pre ++ [m] ->
    Message.id m = botMsgId T ->
    aborted (controller T) st = false ->
    consume generateImage T ((ChunkArrives <$> chunks) ++ rest) st
    = consume generateImage T rest
        (applyUpdate st (SetMessages
           (pre ++ [Message.withText (Message.text m ++ textContribution chunks) m]))).
Proof.
  induction 1 as [|c cs Hc Hcs IH]; intros st pre m Hmsgs Hid Hlive.
  - cbn [textContribution]. rewrite app_nil_r, withText_same, <- Hmsgs, setMessages_same.
    reflexivity.
  - rewrite fmap_cons, <- app_comm_cons. cbn [consume textContribution].
    rewrite Hlive, (chunkStep_text _ _ _ _ pre m Hc Hmsgs Hid), Hc.
    rewrite (IH _ pre (Message.withText (Message.text m ++ chunkContribution c) m));
      [|reflexivity|exact Hid|exact Hlive].
    cbn. rewrite <- app_assoc. reflexivity.
Qed.

(** ** Cancellation *)

Lemma stopGeneration_keeps_abort c st :
  aborted c st = true -> aborted c (stopGeneration st) = true.
Proof.
  unfold aborted. intros H. apply bool_decide_eq_true in H.
  apply bool_decide_eq_true.
  destruct (stopGeneration_fields st) as (_ & _ & ->).
  destruct (abortControllerRef st) as [active|]; [|exact H].
  destruct (decide (active = c)) as [->|Hne].
  - apply list_lookup_insert_eq. eapply lookup_lt_Some; eassumption.
  - rewrite list_lookup_insert_ne by exact Hne. exact H.
Qed.

(** Once the controller of the turn is aborted the loop applies no further
    chunk: it runs out of events or leaves at the next chunk, with the
    messages as they were. *)
Lemma consume_after_abort generateImage T evs :
  forall st, aborted (controller T) st = true -> isLoading st = false ->
  exists st',
    (consume generateImage T evs st = Exhausted st'
     \/ consume generateImage T evs st = Broke st')
    /\ messages st' = messages st
    /\ aborted (controller T) st' = true
    /\ isLoading st' = false.
Proof.
  induction evs as [|[chunk|] evs IH]; intros st Hab Hload; simpl.
  - exists st. auto.
  - rewrite Hab. exists st. auto.
  - destruct (IH (stopGeneration st)) as (st' & Hrun & Hm & Hab' & Hload').
    + apply stopGeneration_keeps_abort, Hab.
    + apply stopGeneration_fields.
    + exists st'. split; [exact Hrun|]. split; [|auto].
      rewrite Hm. apply stopGeneration_fields.
Qed.

Lemma finallyBlock_frame T st :
  messages (finallyBlock T st) = messages st
  /\ sessions (finallyBlock T st) = sessions st
  /\ currentSessionId (finallyBlock T st) = currentSessionId st
  /\ chatSessionRef (finallyBlock T st) = chatSessionRef st
  /\ (isLoading st = false \/ abortControllerRef st = Some (controller T) ->
      isLoading (finallyBlock T st) = false).
Proof.
  unfold finallyBlock. case_bool_decide as Hc; simpl; repeat split; try reflexivity.
  intros [H|H]; [exact H|contradiction].
Qed.

(** The cleanup is guarded: a turn whose controller is no longer the active
    one (the ref was cleared by [startNewChat] or taken by a later turn)
    leaves the ref and the loading flag alone. *)
Lemma finallyBlock_superseded T st :
  abortControllerRef st <> Some (controller T) -> finallyBlock T st = st.
Proof.
  intros H. unfold finallyBlock. rewrite bool_decide_eq_false_2 by exact H. reflexivity.
Qed.

Lemma catchBlock_aborted clk T e st :
  aborted (controller T) st = true -> catchBlock clk T e st = st.
Proof. intros H. unfold catchBlock. rewrite H. reflexivity. Qed.

(** The state a streaming turn starts from: the placeholder is the last
    message, the controller of the turn is the active one and not aborted. *)
Lemma sendMessage_begin_streaming clk text attachment st T st1 :
  sendMessage_begin clk text attachment false st = Some (T, st1) ->
  messages st1 = (messages st ++ [userMessageOf clk text attachment])
                 ++ [placeholderOf clk false]
  /\ Message.id (placeholderOf clk false) = botMsgId T
  /\ aborted (controller T) st1 = false
  /\ abortControllerRef st1 = Some (controller T)
  /\ (controller T < length (signals st1))%nat
  /\ turnModel T = currentModel st.
Proof.
  intros Hbegin. apply sendMessage_begin_Some in Hbegin.
  destruct Hbegin as (-> & Hm & _ & Hc & Hs & _). simpl.
  split; [rewrite Hm, <- app_assoc; reflexivity|].
  split; [reflexivity|]. split; [|split; [exact Hc|split; [|reflexivity]]].
  - unfold aborted. rewrite Hs, lookup_app_r, Nat.sub_diag by lia. reflexivity.
  - rewrite Hs, length_app. simpl. lia.
Qed.

(** A streaming turn stopped between two chunks, after the chunks [chunks]
    (none with a [generate_image] call) were applied, ends, whatever the
    stream does afterwards, with exactly the turn's two messages added to
    the live list, the assistant one carrying the concatenation of the texts
    of those chunks and no error flag; no error message is appended and the
    loading flag is false. *)
Lemma stop_between_chunks (generateImage : jstring -> ImageExchange)
    (clk : TurnClock) (text : jstring) (attachment : option Attachment)
    (chunks : list StreamChunk) (rest : list event) (fin : streamEnd)
    (st : HookState) :
  isBlank text && bool_decide (attachment = None) = false ->
  Forall (fun c => isImageCall c = false) chunks ->
  exists st',
    sendMessage generateImage clk text attachment false
      ((ChunkArrives <$> chunks) ++ StopPressed :: rest) fin st = Some st'
    /\ messages st'
       = messages st
         ++ [userMessageOf clk text attachment;
             Message.withText (concat (chunkContribution <$> chunks))
               (placeholderOf clk false)]
    /\ Message.isError
         (Message.withText (concat (chunkContribution <$> chunks))
            (placeholderOf clk false)) = None
    /\ isLoading st' = false.
Proof.
  intros Hvalid Hplain.
  destruct (sendMessage_begin_accepts clk text attachment false st Hvalid)
    as (T & st1 & Hbegin).
  unfold sendMessage. rewrite Hbegin.
  destruct (sendMessage_begin_streaming _ _ _ _ _ _ Hbegin)
    as (Hm & Hid & Hlive & Hactive & Hrange & _).
  rewrite (consume_text_chunks _ _ _ _ Hplain st1 _ _ Hm Hid Hlive).
  cbn [consume].
  set (st2 := applyUpdate st1 (SetMessages _)).
  destruct (consume_after_abort generateImage T rest (stopGeneration st2))
    as (st3 & Hrun & Hm3 & Hab3 & Hload3).
  { apply stopGeneration_aborts; [exact Hactive|exact Hrange]. }
  { apply stopGeneration_fields. }
  exists (finallyBlock T st3). split.
  - destruct Hrun as [-> | ->]; simpl; [|reflexivity].
    destruct fin; [reflexivity|]. rewrite catchBlock_aborted by exact Hab3. reflexivity.
  - destruct (finallyBlock_frame T st3) as (-> & _ & _ & _ & Hload).
    split; [|split; [reflexivity|apply Hload; left; exact Hload3]].
    rewrite Hm3.
    destruct (stopGeneration_fields st2) as (-> & _).
    subst st2. simpl. rewrite (textContribution_plain _ Hplain), <- app_assoc.
    reflexivity.
Qed.

(** ** A turn that runs to its end *)

(** A chunk with a [generate_image] call never lets the loop go on. *)
Lemma chunkStep_image generateImage T chunk st :
  isImageCall chunk = true ->
  match chunkStep generateImage T chunk st with
  | Continue _ | Crash => False
  | Break _ | Throw _ _ => True
  end.
Proof.
  unfold isImageCall, chunkStep.
  destruct (functionCalls chunk) as [[|call calls]|]; try discriminate.
  intros ->. destruct (callArgs call); exact I.
Qed.

Lemma settle_image_call generateImage clk T chunk st evs fin :
  isImageCall chunk = true ->
  settle clk T (consume generateImage T (ChunkArrives chunk :: evs) st) fin
  = settle clk T (consume generateImage T [ChunkArrives chunk] st) StreamDone.
Proof.
  intros Hcall. cbn [consume].
  destruct (aborted (controller T) st); [reflexivity|].
  pose proof (chunkStep_image generateImage T chunk st Hcall) as H.
  destruct (chunkStep generateImage T chunk st); try contradiction; reflexivity.
Qed.

(** C5, as stated: the text streamed before a [generate_image] call is not
    what the turn ends with; the image path overwrites it. *)
Lemma image_call_replaces_text :
  ~ finalTextIsContribution pictureService sampleClock (utf16 "Draw a cat") None
      [textChunk "Sure. "; imageCallChunk "a cat"] initialState.
Proof.
  intros (st' & Hrun & Htext).
  vm_compute in Hrun. injection Hrun as <-.
  vm_compute in Htext. discriminate.
Qed.

(** Without cancellation, chunks that carry no [generate_image] call are
    appended in arrival order, none dropped, and the turn ends with their
    concatenation as the assistant text; and once a chunk carries such a
    call, what follows it (further chunks, the end of the stream)
    contributes nothing to the turn. *)
Lemma plain_stream_runs (generateImage : jstring -> ImageExchange)
    (clk : TurnClock) (text : jstring) (attachment : option Attachment)
    (chunks : list StreamChunk) (st : HookState) :
  isBlank text && bool_decide (attachment = None) = false ->
  Forall (fun c => isImageCall c = false) chunks ->
  (exists st',
     sendMessage generateImage clk text attachment false
       (ChunkArrives <$> chunks) StreamDone st = Some st'
     /\ messages st'
        = messages st
          ++ [userMessageOf clk text attachment;
              Message.withText (concat (chunkContribution <$> chunks))
                (placeholderOf clk false)]
     /\ isLoading st' = false)
  /\ finalTextIsContribution generateImage clk text attachment chunks st
  /\ (forall call after fin,
        isImageCall call = true ->
        sendMessage generateImage clk text attachment false
          (ChunkArrives <$> (chunks ++ call :: after)) fin st
        = sendMessage generateImage clk text attachment false
            (ChunkArrives <$> (chunks ++ [call])) StreamDone st).
Proof.
  intros Hvalid Hplain.
  destruct (sendMessage_begin_accepts clk text attachment false st Hvalid)
    as (T & st1 & Hbegin).
  destruct (sendMessage_begin_streaming _ _ _ _ _ _ Hbegin)
    as (Hm & Hid & Hlive & Hactive & _).
  assert (Hrun : sendMessage generateImage clk text attachment false
            (ChunkArrives <$> chunks) StreamDone st
          = Some (finallyBlock T (applyUpdate st1 (SetMessages
              (messages st
               ++ [userMessageOf clk text attachment;
                   Message.withText (concat (chunkContribution <$> chunks))
                     (placeholderOf clk false)]))))).
  { unfold sendMessage. rewrite Hbegin.
    rewrite <- (app_nil_r (ChunkArrives <$> chunks)).
    rewrite (consume_text_chunks _ _ _ _ Hplain st1 _ _ Hm Hid Hlive).
    cbn. rewrite (textContribution_plain _ Hplain), <- app_assoc. reflexivity. }
  assert (Hmsgs : messages (finallyBlock T (applyUpdate st1 (SetMessages
              (messages st
               ++ [userMessageOf clk text attachment;
                   Message.withText (concat (chunkContribution <$> chunks))
                     (placeholderOf clk false)]))))
            = messages st
              ++ [userMessageOf clk text attachment;
                  Message.withText (concat (chunkContribution <$> chunks))
                    (placeholderOf clk false)]).
  { destruct (finallyBlock_frame T (applyUpdate st1 (SetMessages
              (messages st
               ++ [userMessageOf clk text attachment;
                   Message.withText (concat (chunkContribution <$> chunks))
                     (placeholderOf clk false)])))) as (-> & _). reflexivity. }
  split; [|split].
  - eexists. split; [exact Hrun|]. split; [exact Hmsgs|].
    apply finallyBlock_frame. right. exact Hactive.
  - eexists. split; [exact Hrun|]. rewrite Hmsgs.
    rewrite (textContribution_plain _ Hplain).
    change (messages st ++ [?u; ?b]) with (messages st ++ [u] ++ [b]).
    rewrite !app_assoc, last_snoc. reflexivity.
  - intros call after fin Hcall. unfold sendMessage. rewrite Hbegin.
    rewrite !fmap_app, !fmap_cons.
    rewrite !(consume_text_chunks _ _ _ _ Hplain st1 _ _ Hm Hid Hlive).
    rewrite fmap_nil. apply settle_image_call. exact Hcall.
Qed.

(** ** A turn that fails *)

Lemma getFriendlyErrorMessage_cases error :
  getFriendlyErrorMessage error
  = if isQuotaError error then quotaMessage else genericMessage.
Proof. reflexivity. Qed.

(** The failures taken for a quota exhaustion are exactly those with status
    or code 429 or with one of the three marks in their JSON text. *)
Lemma isQuotaError_iff error :
  isQuotaError error = true <->
  status error = Some 429 \/ code error = Some 429
  \/ includes (json error) (utf16 "429") = true
  \/ includes (json error) (utf16 "RESOURCE_EXHAUSTED") = true
  \/ includes (json error) (utf16 "quota") = true.
Proof.
  unfold isQuotaError. rewrite !orb_true_iff, !bool_decide_eq_true. tauto.
Qed.

Lemma catchBlock_reports clk T e st :
  aborted (controller T) st = false ->
  name e <> abortErrorName ->
  messages (catchBlock clk T e st)
  = messages st
    ++ [Message.mk (ofZ (errorMsgNow clk)) Model (getFriendlyErrorMessage e)
          (errorMsgDate clk) (Some true) None]
  /\ abortControllerRef (catchBlock clk T e st) = abortControllerRef st
  /\ chatSessionRef (catchBlock clk T e st) = Some (createChatSession (turnModel T) []).
Proof.
  intros Hlive Hname. unfold catchBlock.
  rewrite Hlive, bool_decide_eq_false_2 by exact Hname.
  repeat split; reflexivity.
Qed.

(** C8, as stated: a turn in image mode whose request fails on quota ends
    with the quota message written onto its placeholder; nothing is appended
    to the history. *)
Lemma image_quota_failure_not_appended :
  ~ quotaFailureAppended exhaustedService sampleClock (utf16 "Draw a cat") None true
      [] StreamDone initialState.
Proof.
  intros (T & st1 & st' & Hbegin & Hrun & (m & Happ & _) & _).
  vm_compute in Hbegin. injection Hbegin as <- <-.
  vm_compute in Hrun. injection Hrun as <-.
  apply (f_equal length) in Happ. vm_compute in Happ. discriminate.
Qed.

(** A streaming turn whose stream fails after chunks without
    [generate_image] call, not being cancelled, ends with one assistant
    message appended after the text streamed so far, flagged as an error and
    carrying the quota message when the failure is a quota exhaustion and
    the generic message otherwise; the call returns a state (nothing is
    thrown), the loading flag is false and the backend context is a fresh
    one. *)
Lemma stream_failure_appended (generateImage : jstring -> ImageExchange)
    (clk : TurnClock) (text : jstring) (attachment : option Attachment)
    (chunks : list StreamChunk) (e : JsError) (st : HookState) :
  isBlank text && bool_decide (attachment = None) = false ->
  Forall (fun c => isImageCall c = false) chunks ->
  name e <> abortErrorName ->
  exists st',
    sendMessage generateImage clk text attachment false
      (ChunkArrives <$> chunks) (StreamFailed e) st = Some st'
    /\ appendsErrorMessage
         (messages st
          ++ [userMessageOf clk text attachment;
              Message.withText (concat (chunkContribution <$> chunks))
                (placeholderOf clk false)])
         (messages st')
         (if isQuotaError e then quotaMessage else genericMessage)
    /\ isLoading st' = false
    /\ chatSessionRef st' = Some (createChatSession (currentModel st) []).
Proof.
  intros Hvalid Hplain Hname.
  destruct (sendMessage_begin_accepts clk text attachment false st Hvalid)
    as (T & st1 & Hbegin).
  destruct (sendMessage_begin_streaming _ _ _ _ _ _ Hbegin)
    as (Hm & Hid & Hlive & Hactive & _ & Hmodel).
  unfold sendMessage. rewrite Hbegin.
  rewrite <- (app_nil_r (ChunkArrives <$> chunks)).
  rewrite (consume_text_chunks _ _ _ _ Hplain st1 _ _ Hm Hid Hlive).
  cbn [consume settle].
  set (st2 := applyUpdate st1 (SetMessages _)).
  assert (Hlive2 : aborted (controller T) st2 = false) by exact Hlive.
  assert (Hactive2 : abortControllerRef st2 = Some (controller T)) by exact Hactive.
  assert (Hm2 : messages st2
            = messages st
              ++ [userMessageOf clk text attachment;
                  Message.withText (concat (chunkContribution <$> chunks))
                    (placeholderOf clk false)]).
  { subst st2. cbn [messages applyUpdate].
    rewrite (textContribution_plain _ Hplain), <- app_assoc. reflexivity. }
  clearbody st2.
  destruct (catchBlock_reports clk T e st2 Hlive2 Hname) as (Hcm & Hca & Hcc).
  destruct (finallyBlock_frame T (catchBlock clk T e st2))
    as (Hfm & _ & _ & Hfc & Hfl).
  eexists. split; [reflexivity|].
  rewrite Hfm, Hfc, Hcm, Hcc, Hm2, Hmodel.
  split; [|split; [apply Hfl; right; congruence|reflexivity]].
  eexists. split; [reflexivity|]. repeat split; reflexivity.
Qed.

(** A failure of the image request of a turn in image mode, the turn not
    being stopped meanwhile, is written onto the placeholder of the turn,
    with the same choice of text; nothing is appended and the loading flag
    is false. *)
Lemma image_mode_failure (generateImage : jstring -> ImageExchange)
    (clk : TurnClock) (text : jstring) (attachment : option Attachment)
    (e : JsError) (evs : list event) (fin : streamEnd) (st : HookState) :
  isBlank text && bool_decide (attachment = None) = false ->
  stopWhilePending (generateImage text) = false ->
  imageResult (generateImage text) = ImageFailure e ->
  exists st',
    sendMessage generateImage clk text attachment true evs fin st = Some st'
    /\ messages st'
       = mapBotMessage (ofZ (botMsgNow clk + 1))
           (Message.withTextError
              (if isQuotaError e then quotaMessage else genericMessage))
           (messages st
            ++ [userMessageOf clk text attachment; placeholderOf clk true])
    /\ isLoading st' = false.
Proof.
  intros Hvalid Hstop Hfail.
  destruct (sendMessage_begin_accepts clk text attachment true st Hvalid)
    as (T & st1 & Hbegin).
  unfold sendMessage. rewrite Hbegin.
  apply sendMessage_begin_Some in Hbegin.
  destruct Hbegin as (-> & Hm & _ & Hc & Hs & _).
  eexists. split; [reflexivity|].
  unfold handleImageGeneration. rewrite Hstop, Hfail. cbn [controller botMsgId].
  assert (Hlive : aborted (length (signals st)) st1 = false).
  { unfold aborted. rewrite Hs, lookup_app_r, Nat.sub_diag by lia. reflexivity. }
  rewrite Hlive. unfold finallyBlock. cbn. rewrite Hc.
  rewrite bool_decide_eq_true_2 by reflexivity. cbn.
  rewrite Hm. split; reflexivity.
Qed.

(** * More of the code *)

(** ** Opening, deleting and ordering sessions *)

Lemma list_find_id_elem (l : list ChatSession.t) (s : ChatSession.t) :
  s ∈ l ->
  exists i s0, list_find (fun x => ChatSession.id x = ChatSession.id s) l = Some (i, s0)
               /\ s0 ∈ l /\ ChatSession.id s0 = ChatSession.id s.
Proof.
  intros Hs.
  destruct (list_find (fun x => ChatSession.id x = ChatSession.id s) l)
    as [[i s0]|] eqn:E.
  - exists i, s0. split; [reflexivity|].
    apply list_find_Some in E. destruct E as (Hi & Hid & _).
    split; [eapply list_elem_of_lookup_2; eassumption|exact Hid].
  - apply list_find_None in E. rewrite Forall_forall in E.
    exfalso. apply (E s Hs). reflexivity.
Qed.

(** Opening a stored session shows its messages, makes it the current one
    and drops the backend context; the next sync then has nothing to write:
    opening a conversation does not touch the collection or its dates. *)
Theorem loadSession_opens_settled (st : HookState) (s : ChatSession.t) (now : Z) :
  s ∈ sessions st ->
  exists s0,
    s0 ∈ sessions st
    /\ ChatSession.id s0 = ChatSession.id s
    /\ messages (loadSession (ChatSession.id s) st) = ChatSession.messages s0
    /\ currentSessionId (loadSession (ChatSession.id s) st) = Some (ChatSession.id s)
    /\ chatSessionRef (loadSession (ChatSession.id s) st) = None
    /\ sessions (loadSession (ChatSession.id s) st) = sessions st
    /\ syncOutcome now (loadSession (ChatSession.id s) st) = KeepPrev.
Proof.
  intros Hs.
  destruct (list_find_id_elem _ _ Hs) as (i & s0 & Hfind & Hs0 & Hid).
  exists s0. unfold loadSession. rewrite Hfind. cbn.
  repeat (split; [first [assumption | reflexivity | (rewrite Hid; reflexivity)]|]).
  unfold syncOutcome. cbn. rewrite Hid.
  destruct (truthy (ChatSession.id s)); [|reflexivity].
  case_bool_decide as Hlen; [|reflexivity].
  unfold syncUpdater. rewrite Hfind.
  rewrite sameAsStored_refl; [reflexivity|].
  intros Hnil. rewrite Hnil in Hlen. simpl in Hlen. lia.
Qed.

Lemma loadSession_opens_settled_witness :
  exists s0,
    s0 ∈ sessions idleState
    /\ ChatSession.id s0 = ChatSession.id olderSession
    /\ messages (loadSession (ChatSession.id olderSession) idleState)
       = ChatSession.messages s0
    /\ currentSessionId (loadSession (ChatSession.id olderSession) idleState)
       = Some (ChatSession.id olderSession)
    /\ chatSessionRef (loadSession (ChatSession.id olderSession) idleState) = None
    /\ sessions (loadSession (ChatSession.id olderSession) idleState)
       = sessions idleState
    /\ syncOutcome 1700000000500 (loadSession (ChatSession.id olderSession) idleState)
       = KeepPrev.
Proof.
  apply (loadSession_opens_settled idleState olderSession 1700000000500).
  apply list_elem_of_In. right. left. reflexivity.
Defined.

Lemma filter_id_twice (sessionId : jstring) (l : list ChatSession.t) :
  filter (fun s => ChatSession.id s <> sessionId)
    (filter (fun s => ChatSession.id s <> sessionId) l)
  = filter (fun s => ChatSession.id s <> sessionId) l.
Proof.
  induction l as [|x l IH]; [reflexivity|].
  rewrite (filter_cons _ x l). destruct (decide (ChatSession.id x <> sessionId)) as [H|H].
  - rewrite filter_cons. destruct (decide (ChatSession.id x <> sessionId)); [|contradiction].
    rewrite IH. reflexivity.
  - exact IH.
Qed.

(** Deleting a session twice is deleting it once, and a deleted session
    cannot be opened any more: [loadSession] on its id changes nothing. *)
Theorem deleteSession_idempotent (st : HookState) (sessionId : jstring) :
  deleteSession sessionId (deleteSession sessionId st) = deleteSession sessionId st
  /\ loadSession sessionId (deleteSession sessionId st) = deleteSession sessionId st.
Proof.
  split.
  - unfold deleteSession, deleteSession_updates.
    destruct (bool_decide (Some sessionId = currentSessionId st)) eqn:E; cbn.
    + rewrite filter_id_twice. reflexivity.
    + rewrite E. cbn. rewrite filter_id_twice. reflexivity.
  - unfold loadSession.
    destruct (list_find _ (sessions (deleteSession sessionId st))) as [[i s]|] eqn:E;
      [|reflexivity].
    exfalso. apply list_find_Some in E. destruct E as (Hi & Hid & _).
    apply list_elem_of_lookup_2 in Hi.
    assert (Hs : sessions (deleteSession sessionId st)
                 = filter (fun s => ChatSession.id s <> sessionId) (sessions st)).
    { unfold deleteSession, deleteSession_updates. case_bool_decide; reflexivity. }
    rewrite Hs in Hi. apply list_elem_of_filter in Hi. tauto.
Qed.

Lemma newestFirst_head_max (x : ChatSession.t) (l : list ChatSession.t) :
  newestFirst (x :: l) ->
  Forall (fun y => ChatSession.updatedAt y <= ChatSession.updatedAt x) l.
Proof.
  revert x. induction l as [|y l IH]; intros x H; [constructor|].
  apply newestFirst_cons in H. destruct H as [Hyx Hl].
  constructor; [exact Hyx|].
  eapply Forall_impl; [apply IH, Hl|]. simpl. intros z Hz. lia.
Qed.

Lemma newestFirst_cons_max (x : ChatSession.t) (l : list ChatSession.t) :
  Forall (fun y => ChatSession.updatedAt y <= ChatSession.updatedAt x) l ->
  newestFirst l -> newestFirst (x :: l).
Proof.
  intros Hmax Hl. destruct l as [|y l]; [apply newestFirst_singleton|].
  apply newestFirst_cons. split; [|exact Hl].
  apply Forall_cons in Hmax. tauto.
Qed.

Lemma newestFirst_filter (P : ChatSession.t -> Prop) `{forall s, Decision (P s)}
    (l : list ChatSession.t) :
  newestFirst l -> newestFirst (filter P l).
Proof.
  induction l as [|x l IH]; intros Hl; [exact Hl|].
  pose proof (newestFirst_head_max _ _ Hl) as Hmax.
  specialize (IH (newestFirst_tail _ _ Hl)).
  rewrite filter_cons. destruct (decide (P x)); [|exact IH].
  apply newestFirst_cons_max; [|exact IH].
  apply Forall_forall. intros y Hy. apply list_elem_of_filter in Hy.
  rewrite Forall_forall in Hmax. apply Hmax. tauto.
Qed.

(** The order of the collection (newest first) also survives the deletion of
    a session, the bulk clear, the opening of a session and the search
    filter of the sidebar. *)
Theorem order_kept_by_other_operations `{casing : Casing} (st : HookState) :
  newestFirst (sessions st) ->
  (forall sessionId, newestFirst (sessions (deleteSession sessionId st)))
  /\ (forall confirmed, newestFirst (sessions (clearAllSessions confirmed st)))
  /\ (forall sessionId, newestFirst (sessions (loadSession sessionId st)))
  /\ (forall searchQuery, newestFirst (filteredSessions searchQuery (sessions st))).
Proof.
  intros Hsorted. repeat split.
  - intros sessionId.
    assert (Hs : sessions (deleteSession sessionId st)
                 = filter (fun s => ChatSession.id s <> sessionId) (sessions st)).
    { unfold deleteSession, deleteSession_updates. case_bool_decide; reflexivity. }
    rewrite Hs. apply newestFirst_filter, Hsorted.
  - intros [|]; [apply newestFirst_nil|exact Hsorted].
  - intros sessionId. unfold loadSession.
    destruct (list_find _ (sessions st)) as [[i s]|]; exact Hsorted.
  - intros searchQuery. apply newestFirst_filter, Hsorted.
Qed.

Lemma order_kept_by_other_operations_witness :
  newestFirst (sessions (deleteSession (utf16 "1700000000000") idleState))
  /\ newestFirst (filteredSessions (casing := asciiCasing) (utf16 "HELLO") (sessions idleState)).
Proof.
  assert (Hs : newestFirst (sessions idleState)).
  { apply newestFirst_cons. split; [vm_compute; discriminate|apply newestFirst_singleton]. }
  destruct (order_kept_by_other_operations (casing := asciiCasing) idleState Hs)
    as (Hd & _ & _ & Hf).
  split; [apply Hd|apply Hf].
Defined.

(** ** What the sync effect keeps and what it stores *)

Lemma syncOutcome_NewValue now st v :
  syncOutcome now st = NewValue v ->
  exists cur i s,
    truthyString (currentSessionId st) = Some cur
    /\ messages st <> []
    /\ sessions st !! i = Some s
    /\ ChatSession.id s = cur
    /\ (forall j y, sessions st !! j = Some y -> (j < i)%nat -> ChatSession.id y <> cur)
    /\ v = sortNewestFirst
             (<[i := ChatSession.mk (ChatSession.id s)
                       (deriveTitle (ChatSession.title s) (messages st))
                       (messages st) now]> (sessions st)).
Proof.
  unfold syncOutcome, syncUpdater.
  destruct (truthyString (currentSessionId st)) as [cur|]; [|discriminate].
  case_bool_decide as Hlen; [|discriminate].
  destruct (list_find _ (sessions st)) as [[i s]|] eqn:Hfind; [|discriminate].
  destruct (sameAsStored _ _); [discriminate|].
  intros [= <-]. apply list_find_Some in Hfind. destruct Hfind as (Hi & Hid & Hfirst).
  exists cur, i, s. repeat split; try assumption; try reflexivity.
  intros Hnil. rewrite Hnil in Hlen. simpl in Hlen. lia.
Qed.

Lemma syncEffect_ids (st : HookState) (now : Z) :
  sessionIds (sessions (syncEffect now st)) ≡ₚ sessionIds (sessions st).
Proof.
  rewrite syncEffect_sessions.
  destruct (syncOutcome now st) as [|v] eqn:E; [reflexivity|].
  apply syncOutcome_NewValue in E.
  destruct E as (cur & i & s & _ & _ & Hi & Hid & _ & ->).
  unfold sessionIds at 1. rewrite sortNewestFirst_perm.
  fold (sessionIds (<[i := ChatSession.mk (ChatSession.id s)
            (deriveTitle (ChatSession.title s) (messages st)) (messages st) now]>
            (sessions st))).
  erewrite sessionIds_insert_same; eauto.
Qed.

(** The sync effect neither adds nor removes a session, and it leaves every
    session other than the current one exactly as it was. *)
Theorem syncEffect_touches_current_only (st : HookState) (now : Z) :
  sessionIds (sessions (syncEffect now st)) ≡ₚ sessionIds (sessions st)
  /\ length (sessions (syncEffect now st)) = length (sessions st)
  /\ (forall s, s ∈ sessions st -> Some (ChatSession.id s) <> currentSessionId st ->
                s ∈ sessions (syncEffect now st)).
Proof.
  rewrite syncEffect_sessions.
  destruct (syncOutcome now st) as [|v] eqn:E; [repeat split; auto|].
  apply syncOutcome_NewValue in E.
  destruct E as (cur & i & s & Hcur & _ & Hi & Hid & _ & ->).
  split; [|split].
  - unfold sessionIds at 1. rewrite sortNewestFirst_perm.
    fold (sessionIds (<[i := ChatSession.mk (ChatSession.id s)
              (deriveTitle (ChatSession.title s) (messages st)) (messages st) now]>
              (sessions st))).
    erewrite sessionIds_insert_same; eauto.
  - rewrite sortNewestFirst_perm. apply length_insert.
  - intros x Hx Hne. rewrite sortNewestFirst_perm.
    apply list_elem_of_lookup in Hx. destruct Hx as [j Hj].
    apply list_elem_of_lookup. exists j.
    rewrite list_lookup_insert_ne; [exact Hj|].
    intros ->. rewrite Hi in Hj. injection Hj as <-.
    apply Hne. rewrite Hid. symmetry.
    destruct (currentSessionId st) as [c|]; [|discriminate].
    simpl in Hcur. destruct (truthy c); congruence.
Qed.

(** Unique session ids stay unique: under the sync, under a deletion, and
    under the creation of a session whose fresh id is not in use. *)
Theorem session_ids_stay_unique (st : HookState) :
  NoDup (sessionIds (sessions st)) ->
  (forall now, NoDup (sessionIds (sessions (syncEffect now st))))
  /\ (forall sessionId, NoDup (sessionIds (sessions (deleteSession sessionId st))))
  /\ (forall clk text attachment isImageGen T st1,
        sendMessage_begin clk text attachment isImageGen st = Some (T, st1) ->
        ofZ (sessionIdNow clk) ∉ sessionIds (sessions st) ->
        NoDup (sessionIds (sessions st1))).
Proof.
  intros Hnd. split; [|split].
  - intros now. rewrite syncEffect_ids. exact Hnd.
  - intros sessionId.
    assert (Hs : sessions (deleteSession sessionId st)
                 = filter (fun s => ChatSession.id s <> sessionId) (sessions st)).
    { unfold deleteSession, deleteSession_updates. case_bool_decide; reflexivity. }
    rewrite Hs. unfold sessionIds in *.
    eapply sublist_NoDup; [exact Hnd|].
    apply fmap_sublist, sublist_filter.
  - intros clk text attachment isImageGen T st1 Hbegin Hfresh.
    apply sendMessage_begin_Some in Hbegin.
    destruct Hbegin as (_ & _ & _ & _ & _ & -> & _).
    destruct (truthyString (currentSessionId st)); [exact Hnd|].
    unfold sessionIds in *. rewrite fmap_cons. apply NoDup_cons.
    split; [exact Hfresh|exact Hnd].
Qed.

Lemma session_ids_stay_unique_witness :
  NoDup (sessionIds (sessions (syncEffect 1700000000500 streamingState)))
  /\ NoDup (sessionIds (sessions (deleteSession (utf16 "1600000000000") streamingState)))
  /\ exists T st1,
       sendMessage_begin sampleClock (utf16 "Hi") None false idleState = Some (T, st1)
       /\ NoDup (sessionIds (sessions st1)).
Proof.
  assert (Hnd : NoDup (sessionIds (sessions streamingState))).
  { apply (bool_decide_unpack _). vm_compute. exact I. }
  destruct (session_ids_stay_unique streamingState Hnd) as (H1 & H2 & _).
  destruct (session_ids_stay_unique idleState Hnd) as (_ & _ & H3).
  split; [apply H1|]. split; [apply H2|].
  destruct (sendMessage_begin sampleClock (utf16 "Hi") None false idleState)
    as [[T st1]|] eqn:E; [|vm_compute in E; discriminate].
  exists T, st1. split; [reflexivity|].
  apply (H3 sampleClock (utf16 "Hi") None false T st1 E).
  apply (bool_decide_unpack _). vm_compute. exact I.
Defined.

(** After a sync, the stored copy of the current session agrees with the
    live list on everything the dirty check looks at; and when the sync did
    write, the stored copy is the live list itself, dated [now]. *)
Theorem syncEffect_stores_live_list (st : HookState) (now : Z) (cur : jstring)
    (s : ChatSession.t) :
  NoDup (sessionIds (sessions st)) ->
  truthyString (currentSessionId st) = Some cur ->
  messages st <> [] ->
  s ∈ sessions (syncEffect now st) ->
  ChatSession.id s = cur ->
  sameAsStored (ChatSession.messages s) (messages st) = true
  /\ (syncOutcome now st <> KeepPrev ->
      ChatSession.messages s = messages st /\ ChatSession.updatedAt s = now).
Proof.
  intros Hnd Hcur Hne Hs Hid.
  rewrite syncEffect_sessions in Hs.
  destruct (syncOutcome now st) as [|v] eqn:E.
  - split; [|intros H; contradiction].
    revert E. unfold syncOutcome, syncUpdater. rewrite Hcur.
    rewrite bool_decide_eq_true_2 by (destruct (messages st); [contradiction|simpl; lia]).
    destruct (list_find _ (sessions st)) as [[i s0]|] eqn:Hfind.
    + apply list_find_Some in Hfind. destruct Hfind as (Hi & Hid0 & _).
      assert (s0 = s) as ->.
      { eapply unique_by_id; eauto; [|congruence].
        eapply list_elem_of_lookup_2; eassumption. }
      destruct (sameAsStored _ _); [reflexivity|discriminate].
    + apply list_find_None in Hfind. rewrite Forall_forall in Hfind.
      exfalso. apply (Hfind s Hs Hid).
  - apply syncOutcome_NewValue in E.
    destruct E as (cur' & i & s0 & Hcur' & _ & Hi & Hid0 & _ & ->).
    assert (cur' = cur) as -> by congruence.
    assert (s = ChatSession.mk (ChatSession.id s0)
                  (deriveTitle (ChatSession.title s0) (messages st)) (messages st) now)
      as ->.
    { eapply (unique_by_id (<[i := ChatSession.mk (ChatSession.id s0)
                  (deriveTitle (ChatSession.title s0) (messages st)) (messages st) now]>
                  (sessions st))).
      - erewrite sessionIds_insert_same; eauto.
      - rewrite sortNewestFirst_perm in Hs. exact Hs.
      - eapply list_elem_of_lookup_2. apply list_lookup_insert_eq.
        eapply lookup_lt_Some; eassumption.
      - simpl. congruence. }
    simpl. split; [apply sameAsStored_refl, Hne|]. intros _. split; reflexivity.
Qed.

Lemma syncEffect_stores_live_list_witness :
  exists s,
    s ∈ sessions (syncEffect 1700000000500 streamingState)
    /\ ChatSession.id s = utf16 "1700000000000"
    /\ ChatSession.messages s = messages streamingState
    /\ ChatSession.updatedAt s = 1700000000500.
Proof.
  assert (Hnd : NoDup (sessionIds (sessions streamingState))).
  { apply (bool_decide_unpack _). vm_compute. exact I. }
  eexists (ChatSession.mk (utf16 "1700000000000") (utf16 "Hello")
             (messages streamingState) 1700000000500).
  assert (Hin : ChatSession.mk (utf16 "1700000000000") (utf16 "Hello")
                  (messages streamingState) 1700000000500
                ∈ sessions (syncEffect 1700000000500 streamingState)).
  { apply list_elem_of_In. left. vm_compute. reflexivity. }
  split; [exact Hin|]. split; [reflexivity|].
  apply (syncEffect_stores_live_list streamingState 1700000000500
           (utf16 "1700000000000") _ Hnd eq_refl).
  - discriminate.
  - exact Hin.
  - reflexivity.
  - vm_compute. discriminate.
Defined.

(** The session just written by the sync comes first when its date is later
    than the date of every stored session. *)
Theorem synced_session_comes_first (st : HookState) (now : Z)
    (v : list ChatSession.t) :
  Forall (fun s => ChatSession.updatedAt s < now) (sessions st) ->
  syncOutcome now st = NewValue v ->
  exists s, head v = Some s
    /\ Some (ChatSession.id s) = currentSessionId st
    /\ ChatSession.messages s = messages st
    /\ ChatSession.updatedAt s = now.
Proof.
  intros Hold E. apply syncOutcome_NewValue in E.
  destruct E as (cur & i & s0 & Hcur & _ & Hi & Hid & _ & ->).
  set (s' := ChatSession.mk (ChatSession.id s0)
               (deriveTitle (ChatSession.title s0) (messages st)) (messages st) now).
  assert (Hin : s' ∈ sortNewestFirst (<[i := s']> (sessions st))).
  { rewrite sortNewestFirst_perm. eapply list_elem_of_lookup_2.
    apply list_lookup_insert_eq. eapply lookup_lt_Some; eassumption. }
  destruct (sortNewestFirst (<[i := s']> (sessions st))) as [|h t] eqn:Es;
    [inversion Hin|].
  assert (Hh : h ∈ <[i := s']> (sessions st)).
  { rewrite <- (sortNewestFirst_perm (<[i := s']> (sessions st))), Es. left. }
  assert (Hmax : ChatSession.updatedAt s' <= ChatSession.updatedAt h).
  { pose proof (sortNewestFirst_sorted (<[i := s']> (sessions st))) as Hsorted.
    rewrite Es in Hsorted. apply newestFirst_head_max in Hsorted.
    apply elem_of_cons in Hin. destruct Hin as [->|Hin]; [lia|].
    rewrite Forall_forall in Hsorted. apply Hsorted, Hin. }
  assert (h = s') as ->.
  { apply list_elem_of_lookup in Hh. destruct Hh as [j Hj].
    destruct (decide (i = j)) as [->|Hne].
    - rewrite list_lookup_insert_eq in Hj by (eapply lookup_lt_Some; eassumption).
      congruence.
    - rewrite list_lookup_insert_ne in Hj by exact Hne.
      rewrite Forall_forall in Hold.
      pose proof (Hold h (list_elem_of_lookup_2 _ _ _ Hj)) as Hlt.
      simpl in Hmax. lia. }
  exists s'. repeat split; try reflexivity.
  simpl. rewrite Hid.
  destruct (currentSessionId st) as [c|]; [|discriminate].
  simpl in Hcur. destruct (truthy c); congruence.
Qed.

Lemma synced_session_comes_first_witness :
  exists s, head (sessions (syncEffect 1700000000500 streamingState)) = Some s
    /\ Some (ChatSession.id s) = currentSessionId streamingState
    /\ ChatSession.messages s = messages streamingState
    /\ ChatSession.updatedAt s = 1700000000500.
Proof.
  apply (synced_session_comes_first streamingState 1700000000500).
  - repeat constructor.
  - vm_compute. reflexivity.
Defined.

(** ** Persistence per identity *)

Lemma storageKey_inj e1 e2 : storageKey e1 = storageKey e2 -> e1 = e2.
Proof. unfold storageKey. apply app_inv_head. Qed.

Lemma storageKey_not_userEmailKey e : storageKey e <> userEmailKey.
Proof.
  intros H. apply (f_equal (take 6)) in H. unfold storageKey in H.
  rewrite take_app_le in H by (vm_compute; lia). vm_compute in H. discriminate.
Qed.

Lemma truthyString_truthy o s : truthyString o = Some s -> o = Some s /\ truthy s = true.
Proof.
  destruct o as [x|]; simpl; [|discriminate].
  destruct (truthy x) eqn:E; [|discriminate]. intros [= <-]. auto.
Qed.

(** Saving the sessions of one identity never changes what another identity
    loads, nor the identity remembered by the application; logging in or out
    never changes what an identity loads; and nothing is saved while logged
    out. *)
Theorem storage_is_per_identity `{codec : StorageCodec} (st st' : HookState)
    (e1 e2 : jstring) (localStorage : gmap (list N) (list N)) :
  e1 <> e2 ->
  loadEffect (Some e2) (saveEffect (Some e1) st localStorage) st'
  = loadEffect (Some e2) localStorage st'
  /\ initialUserEmail (saveEffect (Some e1) st localStorage)
     = initialUserEmail localStorage
  /\ loadEffect (Some e2) (handleLogin e1 localStorage).1 st'
     = loadEffect (Some e2) localStorage st'
  /\ loadEffect (Some e2) (handleLogout localStorage).1 st'
     = loadEffect (Some e2) localStorage st'
  /\ saveEffect None st localStorage = localStorage.
Proof.
  intros Hne.
  assert (Hkeys : forall e k v, k <> storageKey e ->
            loadEffect (Some e2) (<[k := v]> localStorage) st'
            = loadEffect (Some e2) localStorage st' \/ e <> e2).
  { intros e k v Hk. destruct (decide (e = e2)) as [->|]; [left|right; assumption].
    unfold loadEffect, loadEffect_updates.
    destruct (truthyString (Some e2)) as [email|] eqn:E; [|reflexivity].
    apply truthyString_truthy in E. destruct E as [[= <-] _].
    rewrite lookup_insert_ne by exact Hk. reflexivity. }
  split; [|split; [|split; [|split]]].
  - unfold saveEffect. destruct (truthyString (Some e1)) as [email|] eqn:E; [|reflexivity].
    apply truthyString_truthy in E. destruct E as [[= <-] _].
    destruct (Hkeys e2 (storageKey e1) (stringifySessions (sessions st))) as [H|H];
      [|exact H|contradiction].
    intros Heq. apply storageKey_inj in Heq. contradiction.
  - unfold saveEffect, initialUserEmail.
    destruct (truthyString (Some e1)) as [email|]; [|reflexivity].
    apply lookup_insert_ne, storageKey_not_userEmailKey.
  - destruct (Hkeys e2 userEmailKey e1) as [H|H]; [|exact H|contradiction].
    intros Heq. symmetry in Heq. exact (storageKey_not_userEmailKey _ Heq).
  - unfold handleLogout, loadEffect, loadEffect_updates. simpl.
    destruct (truthy e2); [|reflexivity].
    rewrite lookup_delete_ne; [reflexivity|].
    intros Heq. symmetry in Heq. exact (storageKey_not_userEmailKey _ Heq).
  - reflexivity.
Qed.

Lemma storage_is_per_identity_witness :
  loadEffect (codec := sampleCodec) (Some (utf16 "an@kite.vn"))
    (saveEffect (codec := sampleCodec) (Some (utf16 "new@kite.vn")) busyState sampleStorage)
    initialState
  = loadEffect (codec := sampleCodec) (Some (utf16 "an@kite.vn")) sampleStorage initialState.
Proof.
  apply (storage_is_per_identity (codec := sampleCodec) busyState initialState
           (utf16 "new@kite.vn") (utf16 "an@kite.vn") sampleStorage).
  vm_compute. discriminate.
Defined.

Lemma sortNewestFirst_sorted_id (l : list ChatSession.t) :
  newestFirst l -> sortNewestFirst l = l.
Proof.
  induction l as [|x l IH]; intros Hl; [reflexivity|].
  simpl. rewrite IH by (eapply newestFirst_tail; eassumption).
  destruct l as [|y l]; [reflexivity|].
  apply newestFirst_cons in Hl. simpl.
  destruct (Z.leb_spec (ChatSession.updatedAt y) (ChatSession.updatedAt x)); [reflexivity|lia].
Qed.

Lemma newestFirst_by_dates (l1 l2 : list ChatSession.t) :
  ChatSession.updatedAt <$> l1 = ChatSession.updatedAt <$> l2 ->
  newestFirst l2 -> newestFirst l1.
Proof.
  intros Hd H i a b Ha Hb.
  assert (Ha' : (ChatSession.updatedAt <$> l2) !! i = Some (ChatSession.updatedAt a))
    by (rewrite <- Hd, list_lookup_fmap, Ha; reflexivity).
  assert (Hb' : (ChatSession.updatedAt <$> l2) !! S i = Some (ChatSession.updatedAt b))
    by (rewrite <- Hd, list_lookup_fmap, Hb; reflexivity).
  rewrite list_lookup_fmap in Ha', Hb'.
  destruct (l2 !! i) as [a'|] eqn:Ea; [|discriminate].
  destruct (l2 !! S i) as [b'|] eqn:Eb; [|discriminate].
  simpl in Ha', Hb'. injection Ha' as <-. injection Hb' as <-.
  eapply H; eassumption.
Qed.

(** Save then load, for one identity: when the codec reads the saved text
    back as sessions with the dates that were saved, and the collection was
    newest first, the load puts exactly the sessions read back in the
    collection, in the order they were saved in, with a fresh conversation. *)
Theorem save_then_load `{codec : StorageCodec} (st st' : HookState)
    (userEmail : jstring) (localStorage : gmap (list N) (list N))
    (readBack : list ChatSession.t) :
  truthy userEmail = true ->
  truthy (stringifySessions (sessions st)) = true ->
  parseSessions (stringifySessions (sessions st)) = Some readBack ->
  ChatSession.updatedAt <$> readBack = ChatSession.updatedAt <$> sessions st ->
  newestFirst (sessions st) ->
  sessions (loadEffect (Some userEmail)
              (saveEffect (Some userEmail) st localStorage) st') = readBack
  /\ messages (loadEffect (Some userEmail)
                 (saveEffect (Some userEmail) st localStorage) st') = []
  /\ currentSessionId (loadEffect (Some userEmail)
                         (saveEffect (Some userEmail) st localStorage) st') = None.
Proof.
  intros He Htext Hparse Hdates Hsorted.
  destruct (loadEffect_state (Some userEmail)
              (saveEffect (Some userEmail) st localStorage) st') as (Hm & Hc & Hs).
  split; [|split; assumption].
  rewrite Hs. unfold saveEffect. simpl. rewrite He.
  rewrite lookup_insert_eq. simpl. rewrite Htext, Hparse.
  apply sortNewestFirst_sorted_id. eapply newestFirst_by_dates; eassumption.
Qed.

Lemma save_then_load_witness :
  sessions (loadEffect (codec := helloOlderCodec) (Some (utf16 "an@kite.vn"))
              (saveEffect (codec := helloOlderCodec) (Some (utf16 "an@kite.vn"))
                 idleState sampleStorage) busyState)
  = [helloSession; olderSession].
Proof.
  apply (save_then_load (codec := helloOlderCodec) idleState busyState
           (utf16 "an@kite.vn") sampleStorage [helloSession; olderSession]);
    try reflexivity.
  apply newestFirst_cons. split; [vm_compute; discriminate|apply newestFirst_singleton].
Defined.

(** The identity survives a reload of the page after a login, is gone after
    a logout, and is not touched by the saving of sessions. *)
Theorem identity_is_remembered `{codec : StorageCodec} (email : jstring)
    (userEmail : option jstring) (st : HookState)
    (localStorage : gmap (list N) (list N)) :
  initialUserEmail (handleLogin email localStorage).1 = Some email
  /\ initialUserEmail (handleLogout localStorage).1 = None
  /\ initialUserEmail (saveEffect userEmail st (handleLogin email localStorage).1)
     = Some email
  /\ initialUserEmail (saveEffect userEmail st (handleLogout localStorage).1) = None.
Proof.
  unfold initialUserEmail, handleLogin, handleLogout, saveEffect. simpl.
  split; [apply lookup_insert_eq|]. split; [apply lookup_delete_eq|].
  destruct (truthyString userEmail) as [e|].
  - split; rewrite lookup_insert_ne by apply storageKey_not_userEmailKey;
      [apply lookup_insert_eq|apply lookup_delete_eq].
  - split; [apply lookup_insert_eq|apply lookup_delete_eq].
Qed.

(** ** The history handed to the backend *)

Lemma historyOf_app (l1 l2 : list Message.t) :
  historyOf (l1 ++ l2) = historyOf l1 ++ historyOf l2.
Proof. unfold historyOf. rewrite filter_app, map_app. reflexivity. Qed.

Lemma historyOf_skip (m : Message.t) : ~ sentAsHistory m -> historyOf [m] = [].
Proof.
  intros H. unfold historyOf. rewrite filter_cons.
  destruct (decide _) as [Hs|_]; [exfalso; apply H, Hs|reflexivity].
Qed.

Lemma isBlank_nil_inv (s : jstring) : isBlank s = false -> truthy s = true.
Proof. destruct s; [discriminate|reflexivity]. Qed.

(** Every entry of the history carries something: one or two parts, never
    none, under the role [user] or [model]; and no error message is ever part
    of the history. *)
Theorem history_entries_wellformed (live : list Message.t) :
  Forall (fun c => parts c <> []
                   /\ (length (parts c) <= 2)%nat
                   /\ (role c = utf16 "user" \/ role c = utf16 "model"))
         (historyOf live)
  /\ (length (historyOf live) <= length live)%nat
  /\ length (historyOf live)
     = length (filter (fun m => sentAsHistory m) live).
Proof.
  split; [|split].
  - unfold historyOf. apply Forall_forall. intros c Hc.
    apply list_elem_of_In, in_map_iff in Hc. destruct Hc as (m & <- & Hm).
    apply list_elem_of_In, list_elem_of_filter in Hm. destruct Hm as [(_ & Hsome) _].
    simpl. split; [|split].
    + destruct (Message.attachment m); [discriminate|].
      destruct Hsome as [Hb|Hb]; [|contradiction].
      rewrite (isBlank_nil_inv _ Hb). discriminate.
    + destruct (Message.attachment m), (truthy (Message.text m)); simpl; lia.
    + case_bool_decide; auto.
  - unfold historyOf. rewrite length_map. apply length_filter.
  - unfold historyOf. rewrite length_map. reflexivity.
Qed.

(** An error message, or a message shown as "thinking", adds nothing to the
    history: the backend is handed the same context with or without it. *)
Theorem history_skips_errors_and_placeholders (live : list Message.t)
    (m : Message.t) :
  Message.isError m = Some true \/ isThinking m = true ->
  historyOf (live ++ [m]) = historyOf live.
Proof.
  intros H. rewrite historyOf_app, historyOf_skip, app_nil_r; [reflexivity|].
  intros (Herr & Hsome). destruct H as [H|H]; [contradiction|].
  unfold isThinking in H. rewrite !andb_true_iff in H.
  destruct H as (((_ & Ht) & Ha) & _).
  apply bool_decide_eq_true in Ha.
  destruct (Message.text m); [|discriminate].
  destruct Hsome as [Hb|Hb]; [discriminate|contradiction].
Qed.

Lemma history_skips_errors_and_placeholders_witness :
  historyOf ([helloUser; hiBot] ++ [placeholderOf sampleClock false])
  = historyOf [helloUser; hiBot].
Proof.
  apply (history_skips_errors_and_placeholders [helloUser; hiBot]
           (placeholderOf sampleClock false)).
  right. reflexivity.
Defined.

(** ** The image path *)

Lemma collectImageParts_from (parts : list Part) (a : option (jstring * jstring))
    (t : jstring) :
  foldl (fun acc part =>
           match inlineData part with
           | Some d => (Some d, acc.2)
           | None =>
               match truthyString (partText part) with
               | Some t => (acc.1, acc.2 ++ t)
               | None => acc
               end
           end) (a, t) parts
  = (match lastInlineData parts with Some d => Some d | None => a end,
     t ++ partsText parts).
Proof.
  revert a t. induction parts as [|p ps IH]; intros a t.
  - simpl. unfold partsText. simpl. rewrite app_nil_r. reflexivity.
  - cbn [foldl]. unfold lastInlineData, partsText in *. cbn [omap list_omap].
    destruct (inlineData p) as [d|] eqn:Ed.
    + rewrite IH. cbn [fst snd]. rewrite last_cons.
      destruct (last (omap inlineData ps)); reflexivity.
    + destruct (truthyString (partText p)) as [tx|]; rewrite IH; cbn [fst snd concat].
      * rewrite app_assoc. reflexivity.
      * reflexivity.
Qed.

(** The loop over the parts of an image reply keeps the last inline data it
    meets as the image, and concatenates, in order, the non-empty texts of
    the parts that carry no inline data as the caption. *)
Theorem collectImageParts_spec (parts : list Part) :
  collectImageParts parts = (lastInlineData parts, partsText parts).
Proof.
  unfold collectImageParts. rewrite collectImageParts_from. simpl.
  destruct (lastInlineData parts); reflexivity.
Qed.

Lemma mapBotMessage_snoc botId f (pre : list Message.t) (p : Message.t) :
  Message.id p = botId ->
  mapBotMessage botId f (pre ++ [p]) = mapBotMessage botId f pre ++ [f p].
Proof.
  intros Hid. unfold mapBotMessage. rewrite map_app. simpl.
  rewrite bool_decide_eq_true_2 by exact Hid. reflexivity.
Qed.

Lemma mapBotMessage_length botId f (l : list Message.t) :
  length (mapBotMessage botId f l) = length l.
Proof. apply length_map. Qed.

Lemma handleImageGeneration_live generateImage prompt T st :
  stopWhilePending (generateImage prompt) = false ->
  aborted (controller T) st = false ->
  handleImageGeneration generateImage prompt T st
  = applyUpdate st (UpdateMessages (mapBotMessage (botMsgId T)
      (imageOutcome (generateImage prompt)))).
Proof.
  intros Hstop Hlive. unfold handleImageGeneration, imageOutcome.
  rewrite Hstop, Hlive.
  destruct (imageResult (generateImage prompt)) as [ps|err]; [|reflexivity].
  rewrite collectImageParts_spec.
  destruct (lastInlineData (default [] ps)) as [[mime d]|]; reflexivity.
Qed.

Lemma handleImageGeneration_stopped generateImage prompt T st :
  stopWhilePending (generateImage prompt) = true ->
  abortControllerRef st = Some (controller T) ->
  (controller T < length (signals st))%nat ->
  handleImageGeneration generateImage prompt T st = stopGeneration st.
Proof.
  intros Hstop Hactive Hrange. unfold handleImageGeneration.
  rewrite Hstop, stopGeneration_aborts by assumption. reflexivity.
Qed.

(** A turn in image mode that is stopped while the image request is pending
    leaves the live list as it was when the request was sent (the user
    message and the placeholder with its caption), whatever the service
    answers, and ends with the loading flag false. *)
Theorem image_turn_cancelled (generateImage : jstring -> ImageExchange)
    (clk : TurnClock) (text : jstring) (attachment : option Attachment)
    (evs : list event) (fin : streamEnd) (st : HookState) :
  isBlank text && bool_decide (attachment = None) = false ->
  stopWhilePending (generateImage text) = true ->
  exists st',
    sendMessage generateImage clk text attachment true evs fin st = Some st'
    /\ messages st'
       = messages st ++ [userMessageOf clk text attachment; placeholderOf clk true]
    /\ isLoading st' = false
    /\ abortControllerRef st' = None.
Proof.
  intros Hvalid Hstop.
  destruct (sendMessage_begin_accepts clk text attachment true st Hvalid)
    as (T & st1 & Hbegin).
  unfold sendMessage. rewrite Hbegin.
  apply sendMessage_begin_Some in Hbegin.
  destruct Hbegin as (HT & Hm & _ & Hc & Hs & _).
  assert (Hc' : abortControllerRef st1 = Some (controller T))
    by (rewrite HT; exact Hc).
  rewrite (handleImageGeneration_stopped generateImage text T st1 Hstop Hc')
    by (rewrite HT; simpl; rewrite Hs, length_app; simpl; lia).
  eexists. split; [reflexivity|].
  unfold finallyBlock, stopGeneration. rewrite Hc'. cbn.
  rewrite bool_decide_eq_true_2 by exact Hc'. cbn.
  split; [exact Hm|split; reflexivity].
Qed.

Lemma image_turn_cancelled_witness :
  exists st',
    sendMessage (fun prompt => mkImageExchange true (imageResult (pictureService prompt)) 11)
      sampleClock (utf16 "Draw a cat") None true [] StreamDone initialState = Some st'
    /\ Message.text <$> messages st' = [utf16 "Draw a cat"; drawingCaption]
    /\ isLoading st' = false.
Proof.
  destruct (image_turn_cancelled
              (fun prompt => mkImageExchange true (imageResult (pictureService prompt)) 11)
              sampleClock (utf16 "Draw a cat") None [] StreamDone initialState)
    as (st' & Hrun & Hm & Hload & _); [reflexivity|reflexivity|].
  exists st'. split; [exact Hrun|]. split; [rewrite Hm; reflexivity|exact Hload].
Defined.

(** A turn in image mode that is not stopped ends with the placeholder
    rewritten by the reply: the image and its caption (the default caption
    when the reply has no text), the "could not generate" error when the
    reply has no image, the friendly error text when the request failed.
    Nothing is appended, and the loading flag is false. *)
Theorem image_turn_result (generateImage : jstring -> ImageExchange)
    (clk : TurnClock) (text : jstring) (attachment : option Attachment)
    (evs : list event) (fin : streamEnd) (st : HookState) :
  isBlank text && bool_decide (attachment = None) = false ->
  stopWhilePending (generateImage text) = false ->
  exists st',
    sendMessage generateImage clk text attachment true evs fin st = Some st'
    /\ last (messages st')
       = Some (imageOutcome (generateImage text) (placeholderOf clk true))
    /\ length (messages st') = (length (messages st) + 2)%nat
    /\ isLoading st' = false.
Proof.
  intros Hvalid Hstop.
  destruct (sendMessage_begin_accepts clk text attachment true st Hvalid)
    as (T & st1 & Hbegin).
  unfold sendMessage. rewrite Hbegin.
  apply sendMessage_begin_Some in Hbegin.
  destruct Hbegin as (HT & Hm & _ & Hc & Hs & _).
  assert (Hc' : abortControllerRef st1 = Some (controller T))
    by (rewrite HT; exact Hc).
  rewrite (handleImageGeneration_live generateImage text T st1 Hstop)
    by (rewrite HT; unfold aborted; simpl;
        rewrite Hs, lookup_app_r, Nat.sub_diag by lia; reflexivity).
  eexists. split; [reflexivity|].
  unfold finallyBlock. cbn.
  rewrite bool_decide_eq_true_2 by exact Hc'. cbn. rewrite Hm, HT. cbn [botMsgId].
  change (messages st ++ [?u; ?p]) with (messages st ++ [u] ++ [p]).
  rewrite app_assoc, mapBotMessage_snoc by reflexivity.
  split; [apply last_snoc|]. split; [|reflexivity].
  rewrite !length_app, mapBotMessage_length, length_app. simpl. lia.
Qed.

Lemma image_turn_result_witness :
  exists st',
    sendMessage pictureService sampleClock (utf16 "Draw a cat") None true
      [] StreamDone initialState = Some st'
    /\ Message.text <$> last (messages st') = Some imageReadyCaption
    /\ (data <$> (last (messages st') ≫= Message.attachment))
       = Some (utf16 "iVBORw0KGgo=")
    /\ isLoading st' = false.
Proof.
  destruct (image_turn_result pictureService sampleClock (utf16 "Draw a cat") None
              [] StreamDone initialState)
    as (st' & Hrun & Hlast & _ & Hload); [reflexivity|reflexivity|].
  exists st'. split; [exact Hrun|]. rewrite Hlast.
  split; [reflexivity|]. split; [reflexivity|exact Hload].
Defined.

(** ** Tool calls in the stream *)

Lemma chunkStep_call_without_args generateImage T chunk call calls st :
  functionCalls chunk = Some (call :: calls) ->
  callName call = Some generateImageName ->
  callArgs call = None ->
  chunkStep generateImage T chunk st = Throw typeError st.
Proof.
  intros Hf Hn Ha. unfold chunkStep. rewrite Hf, Hn, Ha.
  rewrite bool_decide_eq_true_2 by reflexivity. reflexivity.
Qed.

Lemma chunkStep_call_with_args generateImage T chunk call calls p st :
  functionCalls chunk = Some (call :: calls) ->
  callName call = Some generateImageName ->
  callArgs call = Some p ->
  chunkStep generateImage T chunk st
  = Break (handleImageGeneration generateImage
             (default (outboundText T) (truthyString p)) T
             (applyUpdate st (UpdateMessages
                (mapBotMessage (botMsgId T) (Message.withText autoImageCaption))))).
Proof.
  intros Hf Hn Ha. unfold chunkStep. rewrite Hf, Hn, Ha.
  rewrite bool_decide_eq_true_2 by reflexivity. reflexivity.
Qed.

Lemma imageOutcome_withText ex t m :
  imageOutcome ex (Message.withText t m) = imageOutcome ex m.
Proof.
  unfold imageOutcome. destruct (imageResult ex) as [ps|err]; [|reflexivity].
  destruct (lastInlineData (default [] ps)) as [[mime d]|]; reflexivity.
Qed.

Lemma imageOutcome_id ex m : Message.id (imageOutcome ex m) = Message.id m.
Proof.
  unfold imageOutcome. destruct (imageResult ex) as [ps|err]; [|reflexivity].
  destruct (lastInlineData (default [] ps)) as [[mime d]|]; reflexivity.
Qed.

(** A [generate_image] call that carries no arguments makes the turn fail:
    the text streamed so far stays on the placeholder, the generic error
    message is appended after it, and the loading flag is false. *)
Theorem tool_call_without_args_fails (generateImage : jstring -> ImageExchange)
    (clk : TurnClock) (text : jstring) (attachment : option Attachment)
    (chunks : list StreamChunk) (chunk : StreamChunk) (call : FunctionCall)
    (calls : list FunctionCall) (rest : list event) (fin : streamEnd)
    (st : HookState) :
  isBlank text && bool_decide (attachment = None) = false ->
  Forall (fun c => isImageCall c = false) chunks ->
  functionCalls chunk = Some (call :: calls) ->
  callName call = Some generateImageName ->
  callArgs call = None ->
  exists st',
    sendMessage generateImage clk text attachment false
      ((ChunkArrives <$> chunks) ++ ChunkArrives chunk :: rest) fin st = Some st'
    /\ appendsErrorMessage
         (messages st
          ++ [userMessageOf clk text attachment;
              Message.withText (concat (chunkContribution <$> chunks))
                (placeholderOf clk false)])
         (messages st') genericMessage
    /\ isLoading st' = false.
Proof.
  intros Hvalid Hplain Hf Hn Ha.
  destruct (sendMessage_begin_accepts clk text attachment false st Hvalid)
    as (T & st1 & Hbegin).
  destruct (sendMessage_begin_streaming _ _ _ _ _ _ Hbegin)
    as (Hm & Hid & Hlive & Hactive & _ & _).
  unfold sendMessage. rewrite Hbegin.
  rewrite (consume_text_chunks _ _ _ _ Hplain st1 _ _ Hm Hid Hlive).
  cbn [consume].
  set (st2 := applyUpdate st1 (SetMessages _)).
  assert (Hlive2 : aborted (controller T) st2 = false) by exact Hlive.
  assert (Hactive2 : abortControllerRef st2 = Some (controller T)) by exact Hactive.
  assert (Hm2 : messages st2
            = messages st
              ++ [userMessageOf clk text attachment;
                  Message.withText (concat (chunkContribution <$> chunks))
                    (placeholderOf clk false)]).
  { subst st2. cbn [messages applyUpdate].
    rewrite (textContribution_plain _ Hplain), <- app_assoc. reflexivity. }
  clearbody st2.
  rewrite Hlive2, (chunkStep_call_without_args _ _ _ _ _ _ Hf Hn Ha). cbn [settle].
  assert (Hname : name typeError <> abortErrorName) by (vm_compute; discriminate).
  destruct (catchBlock_reports clk T typeError st2 Hlive2 Hname) as (Hcm & Hca & _).
  destruct (finallyBlock_frame T (catchBlock clk T typeError st2))
    as (Hfm & _ & _ & _ & Hfl).
  eexists. split; [reflexivity|].
  rewrite Hfm, Hcm, Hm2. split; [|apply Hfl; right; congruence].
  eexists. split; [reflexivity|]. repeat split; reflexivity.
Qed.

Lemma tool_call_without_args_fails_witness :
  exists st',
    sendMessage pictureService sampleClock (utf16 "Draw a cat") None false
      ((ChunkArrives <$> [textChunk "Sure. "]) ++ ChunkArrives bareImageCallChunk :: [])
      StreamDone initialState = Some st'
    /\ Message.text <$> messages st' = [utf16 "Draw a cat"; utf16 "Sure. "; genericMessage]
    /\ isLoading st' = false.
Proof.
  destruct (tool_call_without_args_fails pictureService sampleClock (utf16 "Draw a cat")
              None [textChunk "Sure. "] bareImageCallChunk
              (mkFunctionCall (Some generateImageName) None) [] [] StreamDone initialState)
    as (st' & Hrun & (m & Hm & _ & _ & Htext) & Hload);
    try reflexivity; [repeat constructor|].
  exists st'. split; [exact Hrun|]. split; [|exact Hload].
  rewrite Hm, fmap_app. simpl. rewrite Htext. reflexivity.
Defined.

(** A [generate_image] call with arguments hands the image service the
    prompt of the call, or the outbound text when the prompt is missing or
    empty; unless stopped, the turn ends with the placeholder rewritten by
    the reply of the service (the text streamed before the call is gone),
    nothing appended, and the loading flag false. *)
Theorem tool_call_draws (generateImage : jstring -> ImageExchange)
    (clk : TurnClock) (text : jstring) (attachment : option Attachment)
    (chunks : list StreamChunk) (chunk : StreamChunk) (call : FunctionCall)
    (calls : list FunctionCall) (p : option jstring) (rest : list event)
    (fin : streamEnd) (st : HookState) :
  isBlank text && bool_decide (attachment = None) = false ->
  Forall (fun c => isImageCall c = false) chunks ->
  functionCalls chunk = Some (call :: calls) ->
  callName call = Some generateImageName ->
  callArgs call = Some p ->
  stopWhilePending (generateImage (default text (truthyString p))) = false ->
  exists st',
    sendMessage generateImage clk text attachment false
      ((ChunkArrives <$> chunks) ++ ChunkArrives chunk :: rest) fin st = Some st'
    /\ last (messages st')
       = Some (imageOutcome (generateImage (default text (truthyString p)))
                 (placeholderOf clk false))
    /\ length (messages st') = (length (messages st) + 2)%nat
    /\ isLoading st' = false.
Proof.
  intros Hvalid Hplain Hf Hn Ha Hstop.
  destruct (sendMessage_begin_accepts clk text attachment false st Hvalid)
    as (T & st1 & Hbegin).
  destruct (sendMessage_begin_streaming _ _ _ _ _ _ Hbegin)
    as (Hm & Hid & Hlive & Hactive & _ & _).
  assert (Htext : outboundText T = text).
  { apply sendMessage_begin_Some in Hbegin. destruct Hbegin as (-> & _). reflexivity. }
  unfold sendMessage. rewrite Hbegin.
  rewrite (consume_text_chunks _ _ _ _ Hplain st1 _ _ Hm Hid Hlive).
  cbn [consume].
  set (b := Message.withText _ (placeholderOf clk false)).
  set (st2 := applyUpdate st1 (SetMessages _)).
  assert (Hlive2 : aborted (controller T) st2 = false) by exact Hlive.
  rewrite Hlive2, (chunkStep_call_with_args _ _ _ _ _ _ _ Hf Hn Ha), Htext.
  cbn [settle].
  rewrite (handleImageGeneration_live generateImage _ T _ Hstop) by exact Hlive.
  destruct (finallyBlock_frame T
              (applyUpdate
                 (applyUpdate st2 (UpdateMessages
                    (mapBotMessage (botMsgId T) (Message.withText autoImageCaption))))
                 (UpdateMessages (mapBotMessage (botMsgId T)
                    (imageOutcome (generateImage (default text (truthyString p))))))))
    as (Hfm & _ & _ & _ & Hfl).
  eexists. split; [reflexivity|]. rewrite Hfm.
  split; [|split; [|apply Hfl; right; exact Hactive]].
  - subst st2. cbn [applyUpdate messages].
    rewrite !mapBotMessage_snoc by (rewrite ?imageOutcome_id; exact Hid).
    rewrite last_snoc. subst b. rewrite !imageOutcome_withText. reflexivity.
  - subst st2. cbn [applyUpdate messages].
    rewrite !mapBotMessage_length, !length_app. simpl. lia.
Qed.

Lemma tool_call_draws_witness :
  exists st',
    sendMessage pictureService sampleClock (utf16 "Draw a cat") None false
      ((ChunkArrives <$> [textChunk "Sure. "]) ++ ChunkArrives (imageCallChunk "a cat")
         :: [ChunkArrives (textChunk "ignored")])
      StreamDone initialState = Some st'
    /\ Message.text <$> last (messages st') = Some imageReadyCaption
    /\ length (messages st') = 2%nat
    /\ isLoading st' = false.
Proof.
  destruct (tool_call_draws pictureService sampleClock (utf16 "Draw a cat")
              None [textChunk "Sure. "] (imageCallChunk "a cat")
              (mkFunctionCall (Some generateImageName) (Some (Some (utf16 "a cat")))) []
              (Some (utf16 "a cat")) [ChunkArrives (textChunk "ignored")] StreamDone
              initialState)
    as (st' & Hrun & Hlast & Hlen & Hload); try reflexivity; [repeat constructor|].
  exists st'. split; [exact Hrun|]. rewrite Hlast.
  split; [reflexivity|]. split; [exact Hlen|exact Hload].
Defined.

(** ** What a turn never touches *)

Lemma turnFrame_refl T s : turnFrame T s s.
Proof. unfold turnFrame. auto. Qed.

Lemma turnFrame_trans T s0 s1 s2 :
  turnFrame T s0 s1 -> turnFrame T s1 s2 -> turnFrame T s0 s2.
Proof.
  unfold turnFrame. intros (A1 & B1 & C1 & D1 & E1) (A2 & B2 & C2 & D2 & E2).
  repeat split; try congruence.
  intros c Hc. rewrite E2 by congruence. apply E1, Hc.
Qed.

Lemma stopGeneration_turnFrame T s : turnFrame T s (stopGeneration s).
Proof.
  unfold turnFrame, stopGeneration.
  destruct (abortControllerRef s) as [active|] eqn:E; simpl; rewrite ?E;
    repeat split; try reflexivity.
  intros c Hc. apply list_lookup_insert_ne. congruence.
Qed.

Lemma updateMessages_turnFrame T s f :
  (forall l, length (f l) = length l) ->
  turnFrame T s (applyUpdate s (UpdateMessages f)).
Proof. intros Hf. unfold turnFrame. simpl. rewrite Hf. auto. Qed.

Lemma handleImageGeneration_turnFrame generateImage prompt T s :
  turnFrame T s (handleImageGeneration generateImage prompt T s).
Proof.
  unfold handleImageGeneration.
  assert (H1 : turnFrame T s
            (if stopWhilePending (generateImage prompt) then stopGeneration s else s)).
  { destruct (stopWhilePending _); [apply stopGeneration_turnFrame|apply turnFrame_refl]. }
  destruct (aborted _ _); [exact H1|].
  eapply turnFrame_trans; [exact H1|].
  destruct (imageResult _) as [ps|err].
  - destruct (collectImageParts _) as [[[mime d]|] txt];
      apply updateMessages_turnFrame; apply mapBotMessage_length.
  - apply updateMessages_turnFrame; apply mapBotMessage_length.
Qed.

Lemma appendChunkText_length botId t prev ms :
  appendChunkText botId t prev = Some ms -> length ms = length prev.
Proof.
  unfold appendChunkText. destruct (last prev) as [m|] eqn:E; [|discriminate].
  intros [= <-]. case_bool_decide; [|reflexivity].
  apply last_Some in E. destruct E as [pre ->].
  rewrite !length_app, length_take, length_app. simpl. lia.
Qed.

Lemma chunkStep_turnFrame generateImage T chunk s :
  match chunkStep generateImage T chunk s with
  | Continue s' | Break s' | Throw _ s' => turnFrame T s s'
  | Crash => True
  end.
Proof.
  assert (Happend :
    match
      match truthyString (chunkText chunk) with
      | None => Continue s
      | Some t =>
          match appendChunkText (botMsgId T) t (messages s) with
          | Some ms => Continue (applyUpdate s (SetMessages ms))
          | None => Crash
          end
      end
    with
    | Continue s' | Break s' | Throw _ s' => turnFrame T s s'
    | Crash => True
    end).
  { destruct (truthyString (chunkText chunk)) as [t|]; [|apply turnFrame_refl].
    destruct (appendChunkText _ _ _) as [ms|] eqn:E; [|exact I].
    apply appendChunkText_length in E. unfold turnFrame. simpl. auto. }
  unfold chunkStep.
  destruct (functionCalls chunk) as [[|call calls]|]; try exact Happend.
  case_bool_decide; [|exact Happend].
  destruct (callArgs call) as [p|]; [|apply turnFrame_refl].
  eapply turnFrame_trans; [|apply handleImageGeneration_turnFrame].
  apply updateMessages_turnFrame, mapBotMessage_length.
Qed.


Lemma catchBlock_turnFrame clk T e s :
  sessions (catchBlock clk T e s) = sessions s
  /\ currentSessionId (catchBlock clk T e s) = currentSessionId s
  /\ abortControllerRef (catchBlock clk T e s) = abortControllerRef s
  /\ signals (catchBlock clk T e s) = signals s
  /\ (length (messages s) <= length (messages (catchBlock clk T e s))
      <= length (messages s) + 1)%nat.
Proof.
  unfold catchBlock. destruct (_ || _); simpl; repeat split; try lia.
  all: rewrite length_app; simpl; lia.
Qed.



(** ** Turns that are no longer on screen *)

Lemma chunkStep_stale generateImage T chunk st m :
  isImageCall chunk = false ->
  last (messages st) = Some m ->
  Message.id m <> botMsgId T ->
  chunkStep generateImage T chunk st = Continue st.
Proof.
  intros Hcall Hlast Hid.
  assert (Happend :
    match truthyString (chunkText chunk) with
    | None => Continue st
    | Some t =>
        match appendChunkText (botMsgId T) t (messages st) with
        | Some ms => Continue (applyUpdate st (SetMessages ms))
        | None => Crash
        end
    end = Continue st).
  { destruct (truthyString (chunkText chunk)) as [t|]; [|reflexivity].
    unfold appendChunkText. rewrite Hlast.
    rewrite bool_decide_eq_false_2 by exact Hid.
    rewrite setMessages_same. reflexivity. }
  unfold chunkStep. unfold isImageCall in Hcall.
  destruct (functionCalls chunk) as [[|call calls]|]; try exact Happend.
  rewrite Hcall. exact Happend.
Qed.

(** A stream never writes into a message that is not its own placeholder:
    when the last message of the live list is another message (another
    conversation was opened meanwhile), the text chunks change nothing. *)
Theorem stale_stream_is_ignored (generateImage : jstring -> ImageExchange)
    (clk : TurnClock) (T : Turn) (chunks : list StreamChunk) (st : HookState)
    (m : Message.t) :
  Forall (fun c => isImageCall c = false) chunks ->
  last (messages st) = Some m ->
  Message.id m <> botMsgId T ->
  aborted (controller T) st = false ->
  settle clk T (consume generateImage T (ChunkArrives <$> chunks) st) StreamDone
  = Some (finallyBlock T st)
  /\ messages (finallyBlock T st) = messages st.
Proof.
  intros Hplain Hlast Hid Hlive. split; [|apply finallyBlock_frame].
  induction Hplain as [|c cs Hc _ IH]; [reflexivity|].
  rewrite fmap_cons. cbn [consume].
  rewrite Hlive, (chunkStep_stale _ _ _ _ _ Hc Hlast Hid). exact IH.
Qed.

Lemma stale_stream_is_ignored_witness :
  settle sampleClock strayTurn
    (consume pictureService strayTurn
       (ChunkArrives <$> [textChunk "Hi"; textChunk " there"]) busyState) StreamDone
  = Some (finallyBlock strayTurn busyState)
  /\ messages (finallyBlock strayTurn busyState) = [helloUser; hiBot].
Proof.
  apply (stale_stream_is_ignored pictureService sampleClock strayTurn
           [textChunk "Hi"; textChunk " there"] busyState hiBot).
  - repeat constructor.
  - reflexivity.
  - vm_compute. discriminate.
  - reflexivity.
Defined.

(** A text chunk that arrives when the live list is empty (a new chat was
    started meanwhile) makes the append updater throw, reading the id of a
    message that is not there; this is not caught by the turn. *)
Theorem chunk_on_empty_list_throws (generateImage : jstring -> ImageExchange)
    (clk : TurnClock) (T : Turn) (chunk : StreamChunk) (t : jstring)
    (evs : list event) (fin : streamEnd) (st : HookState) :
  messages st = [] ->
  aborted (controller T) st = false ->
  isImageCall chunk = false ->
  truthyString (chunkText chunk) = Some t ->
  settle clk T (consume generateImage T (ChunkArrives chunk :: evs) st) fin = None.
Proof.
  intros Hm Hlive Hcall Ht. cbn [consume]. rewrite Hlive.
  assert (Hstep : chunkStep generateImage T chunk st = Crash).
  { unfold chunkStep. unfold isImageCall in Hcall. rewrite Ht.
    unfold appendChunkText. rewrite Hm. simpl.
    destruct (functionCalls chunk) as [[|call calls]|]; try reflexivity.
    rewrite Hcall. reflexivity. }
  rewrite Hstep. reflexivity.
Qed.

Lemma chunk_on_empty_list_throws_witness :
  settle sampleClock strayTurn
    (consume pictureService strayTurn [ChunkArrives (textChunk "Hi")]
       (startNewChat true busyState)) StreamDone = None.
Proof.
  apply (chunk_on_empty_list_throws pictureService sampleClock strayTurn
           (textChunk "Hi") (utf16 "Hi") [] StreamDone (startNewChat true busyState));
    reflexivity.
Defined.

(** A stopped turn that wakes up after a later turn has taken the controller
    ref changes nothing at all: no message, no flag, no ref; in particular it
    does not clear the loading flag of the later turn. *)
Theorem superseded_turn_changes_nothing (generateImage : jstring -> ImageExchange)
    (clk : TurnClock) (T : Turn) (chunks : list StreamChunk) (fin : streamEnd)
    (st : HookState) :
  aborted (controller T) st = true ->
  abortControllerRef st <> Some (controller T) ->
  settle clk T (consume generateImage T (ChunkArrives <$> chunks) st) fin = Some st.
Proof.
  intros Hab Href. destruct chunks as [|c cs].
  - simpl. destruct fin as [|e]; rewrite ?catchBlock_aborted by exact Hab;
      rewrite finallyBlock_superseded by exact Href; reflexivity.
  - rewrite fmap_cons. cbn [consume settle]. rewrite Hab. cbn [settle].
    rewrite finallyBlock_superseded by exact Href. reflexivity.
Qed.

Lemma superseded_turn_changes_nothing_witness :
  settle sampleClock (mkTurn 0 (utf16 "1700000000002") (utf16 "Hello") Gemini3FlashPreview)
    (consume pictureService
       (mkTurn 0 (utf16 "1700000000002") (utf16 "Hello") Gemini3FlashPreview)
       (ChunkArrives <$> [textChunk "late"])
       (mkState [helloUser; hiBot] [helloSession] (Some (utf16 "1700000000000")) true
          Gemini3FlashPreview None (Some 1%nat) [true; false]))
    (StreamFailed quotaError)
  = Some (mkState [helloUser; hiBot] [helloSession] (Some (utf16 "1700000000000")) true
            Gemini3FlashPreview None (Some 1%nat) [true; false]).
Proof.
  apply (superseded_turn_changes_nothing pictureService sampleClock
           (mkTurn 0 (utf16 "1700000000002") (utf16 "Hello") Gemini3FlashPreview)
           [textChunk "late"] (StreamFailed quotaError)).
  - reflexivity.
  - discriminate.
Defined.

(** A turn that fails after [startNewChat] cleared the controller ref still
    appends its error message, to whatever list is live, and leaves the
    loading flag as it finds it: only the active turn clears the flag. *)
Theorem orphaned_turn_failure (generateImage : jstring -> ImageExchange)
    (clk : TurnClock) (T : Turn) (e : JsError) (st : HookState) :
  abortControllerRef st <> Some (controller T) ->
  aborted (controller T) st = false ->
  name e <> abortErrorName ->
  exists st',
    settle clk T (consume generateImage T [] st) (StreamFailed e) = Some st'
    /\ appendsErrorMessage (messages st) (messages st') (getFriendlyErrorMessage e)
    /\ isLoading st' = isLoading st
    /\ abortControllerRef st' = abortControllerRef st.
Proof.
  intros Href Hlive Hname. simpl.
  destruct (catchBlock_reports clk T e st Hlive Hname) as (Hm & Hc & _).
  rewrite finallyBlock_superseded by (rewrite Hc; exact Href).
  eexists. split; [reflexivity|]. split; [|split; [|exact Hc]].
  - rewrite Hm. eexists. split; [reflexivity|]. repeat split; reflexivity.
  - unfold catchBlock. rewrite Hlive, bool_decide_eq_false_2 by exact Hname. reflexivity.
Qed.

Lemma orphaned_turn_failure_witness :
  exists st',
    settle sampleClock strayTurn
      (consume pictureService strayTurn [] (startNewChat true busyState))
      (StreamFailed quotaError) = Some st'
    /\ Message.text <$> messages st' = [quotaMessage]
    /\ isLoading st' = true.
Proof.
  destruct (orphaned_turn_failure pictureService sampleClock strayTurn quotaError
              (startNewChat true busyState))
    as (st' & Hrun & (m & Hm & _ & _ & Htext) & Hload & _).
  - discriminate.
  - reflexivity.
  - vm_compute. discriminate.
  - exists st'. split; [exact Hrun|]. split; [|exact Hload].
    rewrite Hm. simpl. rewrite Htext. reflexivity.
Defined.

(** ** The components around the hook *)

Lemma trimStart_nil_iff (s : jstring) : trimStart s = [] <-> isBlank s = true.
Proof.
  unfold isBlank. induction s as [|c r IH]; simpl; [tauto|].
  destruct (isWhiteSpace c); simpl; [exact IH|]. split; discriminate.
Qed.

Lemma trimStart_fixed (s : jstring) : trimStart (trimStart s) = trimStart s.
Proof.
  induction s as [|c r IH]; simpl; [reflexivity|].
  destruct (isWhiteSpace c) eqn:E; [exact IH|]. simpl. rewrite E. reflexivity.
Qed.

Lemma isBlank_reverse (s : jstring) : isBlank (reverse s) = isBlank s.
Proof.
  unfold isBlank. apply eq_true_iff_eq. rewrite !forallb_forall.
  split; intros H x Hx; apply H; rewrite <- list_elem_of_In in *;
    rewrite elem_of_reverse in *; exact Hx.
Qed.

(** The two tests of emptiness agree: [s.trim()] is the empty string exactly
    when every code unit of [s] is white space. *)
Lemma trim_blank (s : jstring) : truthy (trim s) = negb (isBlank s).
Proof.
  unfold trim. destruct (isBlank s) eqn:E.
  - apply trimStart_nil_iff in E. rewrite E. reflexivity.
  - destruct (reverse (trimStart (reverse (trimStart s)))) as [|c r] eqn:Er;
      [|reflexivity].
    exfalso. apply (f_equal reverse) in Er. rewrite reverse_involutive in Er.
    simpl in Er. apply trimStart_nil_iff in Er. rewrite isBlank_reverse in Er.
    apply trimStart_nil_iff in Er. rewrite trimStart_fixed in Er.
    apply trimStart_nil_iff in Er. congruence.
Qed.

(** The login form lets a user in exactly when the email and the password
    are not blank, the lower-cased email ends in "@gmail.com" and the password
    has at least 12 code units; the identity it hands on is the email as
    typed, which is never the empty string; and a rejected form keeps its
    loading flag. *)
Theorem handleSubmit_accepts `{casing : Casing} (f : LoginForm) :
  ((handleSubmit f).2 = Some (email f)
   <-> isBlank (email f) = false
       /\ isBlank (password f) = false
       /\ endsWith (toLowerCase (email f)) gmailSuffix = true
       /\ (12 <= length (password f))%nat)
  /\ ((handleSubmit f).2 = Some (email f) \/ (handleSubmit f).2 = None)
  /\ ((handleSubmit f).2 = Some (email f) ->
      truthyString (Some (email f)) = Some (email f)
      /\ error (handleSubmit f).1 = None
      /\ formLoading (handleSubmit f).1 = true)
  /\ ((handleSubmit f).2 = None ->
      formLoading (handleSubmit f).1 = formLoading f
      /\ (error (handleSubmit f).1 = Some fillAllMessage
          \/ error (handleSubmit f).1 = Some gmailOnlyMessage
          \/ error (handleSubmit f).1 = Some shortPasswordMessage)).
Proof.
  unfold handleSubmit. rewrite !trim_blank, !negb_involutive.
  destruct (isBlank (email f)) eqn:Ee; simpl.
  { repeat split; try discriminate; auto; intros (? & _); discriminate. }
  destruct (isBlank (password f)) eqn:Ep; simpl.
  { repeat split; try discriminate; auto; intros (_ & ? & _); discriminate. }
  destruct (endsWith (toLowerCase (email f)) gmailSuffix) eqn:Eg; simpl.
  2: { repeat split; try discriminate; auto; intros (_ & _ & ? & _); discriminate. }
  case_bool_decide as Hlen; simpl.
  { repeat split; try discriminate; auto; intros (_ & _ & _ & ?); lia. }
  repeat split; auto; try lia; try discriminate.
  destruct (email f); [discriminate|reflexivity].
Qed.

Lemma handleSubmit_accepts_witness :
  (handleSubmit (casing := asciiCasing) goodForm).2 = Some (utf16 "An.Nguyen@Gmail.com")
  /\ (handleSubmit (casing := asciiCasing)
        (mkLoginForm (utf16 "an@gmail.com") (utf16 "            ") None false)).2 = None.
Proof.
  split.
  - apply (handleSubmit_accepts (casing := asciiCasing) goodForm).
    repeat split; vm_compute; lia || reflexivity.
  - vm_compute. reflexivity.
Defined.

(** The input sends exactly what [sendMessage] accepts: nothing while a turn
    is loading, nothing when the text is blank and no file is attached, and
    otherwise a message that [sendMessage] does not turn down, after which
    the input is cleared. *)
Theorem handleSend_agrees_with_sendMessage (isLoading : bool) (s : InputState)
    (clk : TurnClock) (st : HookState) :
  match (handleSend isLoading s).2 with
  | Some (text, attachment, isImageGen) =>
      isLoading = false
      /\ (text, attachment, isImageGen) = (inputText s, inputAttachment s, isImageMode s)
      /\ (exists T st1,
            sendMessage_begin clk text attachment isImageGen st = Some (T, st1))
      /\ (handleSend isLoading s).1
         = mkInputState [] None None None false (isTranscribing s)
  | None =>
      (handleSend isLoading s).1 = s
      /\ (isLoading = true
          \/ sendMessage_begin clk (inputText s) (inputAttachment s) (isImageMode s) st
             = None)
  end.
Proof.
  unfold handleSend. rewrite trim_blank.
  destruct isLoading; simpl.
  { rewrite andb_false_r. simpl. auto. }
  rewrite andb_true_r.
  destruct (isBlank (inputText s)) eqn:Eb; simpl.
  - destruct (inputAttachment s) as [a|] eqn:Ea; simpl.
    + repeat split; try reflexivity.
      apply sendMessage_begin_accepts. rewrite Eb. reflexivity.
    + split; [reflexivity|]. right.
      unfold sendMessage_begin. rewrite Eb. reflexivity.
  - repeat split; try reflexivity.
    apply sendMessage_begin_accepts. rewrite Eb. reflexivity.
Qed.

Lemma endsWith_space_cases (s : jstring) :
  endsWith s (utf16 " ") = true <-> exists pre, s = pre ++ utf16 " ".
Proof.
  unfold endsWith. change (reverse (utf16 " ")) with [32%N].
  split.
  - intros H. destruct (reverse s) as [|c r] eqn:E; [discriminate|].
    cbn [startsWith] in H. apply andb_prop in H. destruct H as [H _].
    apply N.eqb_eq in H. subst c.
    exists (reverse r). apply (f_equal reverse) in E.
    rewrite reverse_involutive, reverse_cons in E. exact E.
  - intros [pre ->]. rewrite reverse_app.
    change (reverse (utf16 " ")) with [32%N]. cbn [app startsWith].
    rewrite N.eqb_refl. destruct (reverse pre); reflexivity.
Qed.

(** Dictation only ever appends: the text typed so far is a prefix of the
    text after a transcription, untouched when the service fails, returns no
    text, only white space or the no-speech sentinel; a single space
    separates the two unless the text was empty or already ended in one; and
    the transcribing flag is always cleared. *)
Theorem processAudio_appends (r : TranscriptionResult) (s : InputState) :
  isTranscribing (processAudio r s) = false
  /\ inputAttachment (processAudio r s) = inputAttachment s
  /\ inputText s `prefix_of` inputText (processAudio r s)
  /\ match r with
     | Transcribed (Some t) =>
         if isBlank t || bool_decide (trim t = noSpeechSentinel)
         then inputText (processAudio r s) = inputText s
         else ((inputText s = [] \/ exists pre, inputText s = pre ++ utf16 " ")
               /\ inputText (processAudio r s) = inputText s ++ trim t)
              \/ (inputText s <> []
                  /\ ~ (exists pre, inputText s = pre ++ utf16 " ")
                  /\ inputText (processAudio r s) = inputText s ++ utf16 " " ++ trim t)
     | _ => inputText (processAudio r s) = inputText s
     end.
Proof.
  unfold processAudio. split; [reflexivity|]. split; [reflexivity|].
  destruct r as [[t|]|]; simpl; try (split; [reflexivity|reflexivity]).
  rewrite trim_blank, negb_involutive.
  destruct (isBlank t || bool_decide (trim t = noSpeechSentinel)) eqn:E;
    [split; reflexivity|].
  split; [eexists; reflexivity|].
  destruct (inputText s) as [|c cs] eqn:Et; [left; split; [left|]; reflexivity|].
  simpl truthy. cbn [andb].
  destruct (endsWith (c :: cs) (utf16 " ")) eqn:Ee; simpl negb; cbv iota.
  - left. split; [|reflexivity]. right. apply endsWith_space_cases, Ee.
  - right. split; [discriminate|]. split; [|reflexivity].
    intros Hpre. apply endsWith_space_cases in Hpre. congruence.
Qed.

Lemma startsWith_nonempty (s p : jstring) :
  startsWith s p = true -> p <> [] -> truthy s = true.
Proof. destruct s, p; simpl; intros; congruence. Qed.

(** A picked file that is accepted always gets a MIME type: its own, or
    [text/plain] when it has none and its name has a listed extension; and
    the image picker accepts image types only. *)
Theorem accepted_file_has_mime `{casing : Casing} (file : FileInfo)
    (isImageOnly : bool) (m : jstring) :
  handleFileSelect (Some file) isImageOnly = Reading m ->
  truthy m = true
  /\ (m = fileType file
      \/ (fileType file = [] /\ m = utf16 "text/plain" /\ hasValidExt file = true))
  /\ (isImageOnly = true ->
      m = fileType file /\ startsWith m (utf16 "image/") = true).
Proof.
  unfold handleFileSelect.
  destruct (isImageOnly && negb (startsWith (fileType file) (utf16 "image/"))) eqn:Eimg;
    [discriminate|].
  destruct (startsWith (fileType file) (utf16 "image/")) eqn:E1; simpl.
  { rewrite (startsWith_nonempty _ _ E1) by discriminate. simpl.
    intros [= <-]. rewrite (startsWith_nonempty _ _ E1) by discriminate. auto. }
  assert (Hnot : isImageOnly = false) by (destruct isImageOnly; [discriminate|reflexivity]).
  subst isImageOnly.
  destruct (fileType file) as [|c t] eqn:Et.
  - simpl. destruct (hasValidExt file) eqn:Ev; simpl.
    + intros [= <-]. repeat split; try discriminate. right. auto.
    + discriminate.
  - simpl truthy. cbn [negb andb]. intros H.
    destruct (negb _ && negb _ && negb _ && negb _); [discriminate|].
    injection H as <-. repeat split; try discriminate. left. reflexivity.
Qed.

Lemma accepted_file_has_mime_witness :
  handleFileSelect (casing := asciiCasing) (Some notesFile) false
  = Reading (utf16 "text/plain")
  /\ truthy (utf16 "text/plain") = true.
Proof.
  split; [reflexivity|].
  apply (accepted_file_has_mime (casing := asciiCasing) notesFile false (utf16 "text/plain")).
  reflexivity.
Defined.

Lemma afterSeparator_app (sep : N) (l1 l2 : jstring) :
  sep ∉ l1 -> afterSeparator sep (l1 ++ sep :: l2) = Some l2.
Proof.
  induction l1 as [|c r IH]; intros Hnot; simpl.
  - rewrite N.eqb_refl. reflexivity.
  - destruct (N.eqb_spec c sep) as [->|_]; [exfalso; apply Hnot; left|].
    apply IH. intros H. apply Hnot. right. exact H.
Qed.

Lemma firstField_whole (sep : N) (l : jstring) : sep ∉ l -> firstField sep l = l.
Proof.
  induction l as [|c r IH]; intros Hnot; simpl; [reflexivity|].
  destruct (N.eqb_spec c sep) as [->|_]; [exfalso; apply Hnot; left|].
  rewrite IH; [reflexivity|]. intros H. apply Hnot. right. exact H.
Qed.

(** Round trip of an image through the input and the bubble: from the data
    URL the reader produced, the input keeps the payload as attachment data
    and the URL as preview, and the bubble of a message carrying that
    attachment rebuilds the very same URL. *)
Theorem image_data_url_roundtrip (file : FileInfo) (mime payload : jstring)
    (fresh : nat) (s : InputState) :
  fileType file = mime ->
  startsWith mime (utf16 "image/") = true ->
  44%N ∉ mime ->
  44%N ∉ payload ->
  exists s' a,
    onloadend file mime (utf16 "data:" ++ mime ++ utf16 ";base64," ++ payload) fresh s
    = Some s'
    /\ inputAttachment s' = Some a
    /\ data a = payload
    /\ mimeType a = mime
    /\ previewUrl s' = Some (utf16 "data:" ++ mime ++ utf16 ";base64," ++ payload)
    /\ inputText s' = inputText s
    /\ forall m, Message.attachment m = Some a ->
         imageUrl m = utf16 "data:" ++ mime ++ utf16 ";base64," ++ payload.
Proof.
  intros Htype Himg Hmime Hpay.
  assert (Hsec : secondField 44
                   (utf16 "data:" ++ mime ++ utf16 ";base64," ++ payload)
                 = Some payload).
  { unfold secondField.
    replace (utf16 "data:" ++ mime ++ utf16 ";base64," ++ payload)
      with ((utf16 "data:" ++ mime ++ utf16 ";base64") ++ 44%N :: payload)
      by (rewrite <- !app_assoc; reflexivity).
    rewrite afterSeparator_app.
    - simpl. rewrite firstField_whole by exact Hpay. reflexivity.
    - rewrite !elem_of_app. intros [H|[H|H]]; [|contradiction|];
        apply list_elem_of_In in H; vm_compute in H; intuition discriminate. }
  unfold onloadend. rewrite Hsec, Htype, Himg.
  eexists _, _. split; [reflexivity|]. simpl. repeat split; try reflexivity.
  intros m Hm. unfold imageUrl. rewrite Hm. simpl. rewrite Himg. reflexivity.
Qed.

Lemma image_data_url_roundtrip_witness :
  exists s' a,
    onloadend catFile (utf16 "image/png")
      (utf16 "data:" ++ utf16 "image/png" ++ utf16 ";base64," ++ utf16 "iVBORw0KGgo=")
      7 emptyInput = Some s'
    /\ inputAttachment s' = Some a
    /\ data a = utf16 "iVBORw0KGgo="
    /\ imageUrl (Message.mk (utf16 "1") User [] 0 None (Some a))
       = utf16 "data:image/png;base64,iVBORw0KGgo=".
Proof.
  destruct (image_data_url_roundtrip catFile (utf16 "image/png") (utf16 "iVBORw0KGgo=")
              7 emptyInput)
    as (s' & a & Hrun & Ha & Hd & _ & _ & _ & Hurl).
  - reflexivity.
  - reflexivity.
  - apply (bool_decide_unpack _). vm_compute. exact I.
  - apply (bool_decide_unpack _). vm_compute. exact I.
  - exists s', a. split; [exact Hrun|]. split; [exact Ha|]. split; [exact Hd|].
    rewrite (Hurl (Message.mk (utf16 "1") User [] 0 None (Some a)) eq_refl). reflexivity.
Defined.

Lemma includes_nil (s : jstring) : includes s [] = true.
Proof. destruct s; reflexivity. Qed.

(** The sidebar search lists every session for the empty query, always lists
    a sub-list of the collection in the same order, and filtering twice with
    one query lists the same as filtering once. *)
Theorem sidebar_search `{casing : Casing} (searchQuery : jstring)
    (l : list ChatSession.t) :
  toLowerCase [] = [] ->
  filteredSessions [] l = l
  /\ filteredSessions searchQuery l `sublist_of` l
  /\ filteredSessions searchQuery (filteredSessions searchQuery l)
     = filteredSessions searchQuery l.
Proof.
  intros Hnil. unfold filteredSessions. split; [|split].
  - rewrite Hnil. induction l as [|x l IH]; [reflexivity|].
    rewrite filter_cons. destruct (decide _) as [_|Hn];
      [rewrite IH; reflexivity|]. exfalso. apply Hn, includes_nil.
  - apply sublist_filter.
  - induction l as [|x l IH]; [reflexivity|].
    rewrite (filter_cons _ x l). destruct (decide _) as [Hx|Hx]; [|exact IH].
    rewrite filter_cons. destruct (decide _); [|contradiction].
    rewrite IH. reflexivity.
Qed.

Lemma sidebar_search_witness :
  filteredSessions (casing := asciiCasing) [] [helloSession; olderSession]
  = [helloSession; olderSession]
  /\ filteredSessions (casing := asciiCasing) (utf16 "OLD") [helloSession; olderSession]
     `sublist_of` [helloSession; olderSession].
Proof.
  destruct (sidebar_search (casing := asciiCasing) (utf16 "OLD")
              [helloSession; olderSession] eq_refl) as (H1 & H2 & _).
  split; [exact H1|exact H2].
Defined.

(** * Whole turns, and the application around the hook *)

(** ** Loading at login *)

Lemma syncEffect_no_sessions now st : sessions st = [] -> syncEffect now st = st.
Proof.
  intros Hs. unfold syncEffect, syncOutcome, syncUpdater. rewrite Hs.
  destruct (truthyString (currentSessionId st)); [|reflexivity].
  case_bool_decide; reflexivity.
Qed.

(** Nothing that runs behind the login screen writes the session
    collection. *)
Lemma backgroundStep_sessions ev st st' :
  backgroundStep ev st = Some st' -> sessions st = [] -> sessions st' = [].
Proof.
  intros Hstep Hs. destruct ev as [g T chunk|g prompt T|clk T e|T|now|]; simpl in Hstep.
  - destruct (aborted (controller T) st); [congruence|].
    pose proof (chunkStep_turnFrame g T chunk st) as Hframe.
    destruct (chunkStep g T chunk st) as [s|s|err s|]; try discriminate;
      injection Hstep as <-; destruct Hframe as (-> & _); exact Hs.
  - injection Hstep as <-.
    destruct (handleImageGeneration_turnFrame g prompt T st) as (-> & _). exact Hs.
  - injection Hstep as <-.
    destruct (catchBlock_turnFrame clk T e st) as (-> & _). exact Hs.
  - injection Hstep as <-.
    destruct (finallyBlock_frame T st) as (_ & -> & _). exact Hs.
  - injection Hstep as <-. rewrite syncEffect_no_sessions; exact Hs.
  - injection Hstep as <-. exact Hs.
Qed.

Lemma backgroundRun_sessions evs :
  forall st st', backgroundRun evs st = Some st' -> sessions st = [] -> sessions st' = [].
Proof.
  induction evs as [|ev evs IH]; intros st st' Hrun Hs; simpl in Hrun.
  - congruence.
  - destruct (backgroundStep ev st) as [s|] eqn:E; [|discriminate].
    eapply IH; [exact Hrun|]. eapply backgroundStep_sessions; eassumption.
Qed.

(** Whenever a truthy identity is loaded the session collection is empty:
    it is so in the initial state, the load for a falsy identity empties it,
    and nothing refills it behind the login screen. *)
Lemma stateAtLogin_sessions `{codec : StorageCodec} (st : HookState) :
  stateAtLogin st -> sessions st = [].
Proof.
  intros Hreach.
  destruct Hreach as [|userEmail localStorage st0 evs st Hfalsy Hrun]; [reflexivity|].
  eapply backgroundRun_sessions; [exact Hrun|].
  destruct (loadEffect_state userEmail localStorage st0) as (_ & _ & ->).
  rewrite Hfalsy. reflexivity.
Qed.

(** C2: whenever the application loads the sessions of an identity whose
    stored text does not parse, the load effect returns a state (nothing is
    thrown) in which the session collection is empty, the live list is
    empty, there is no current session, and both refs are cleared. *)
Theorem malformed_load_degrades `{codec : StorageCodec} (st : HookState)
    (userEmail stored : jstring) (localStorage : gmap (list N) (list N)) :
  stateAtLogin st ->
  truthy userEmail = true ->
  localStorage !! storageKey userEmail = Some stored ->
  truthy stored = true ->
  parseSessions stored = None ->
  sessions (loadEffect (Some userEmail) localStorage st) = []
  /\ messages (loadEffect (Some userEmail) localStorage st) = []
  /\ currentSessionId (loadEffect (Some userEmail) localStorage st) = None
  /\ chatSessionRef (loadEffect (Some userEmail) localStorage st) = None
  /\ abortControllerRef (loadEffect (Some userEmail) localStorage st) = None.
Proof.
  intros Hreach He Hget Hs Hparse.
  rewrite (loadEffect_malformed_keeps st userEmail stored localStorage He Hget Hs Hparse).
  split; [|repeat split; reflexivity].
  change (sessions (startNewChat true st)) with (sessions st).
  apply stateAtLogin_sessions, Hreach.
Qed.

Lemma malformed_load_degrades_witness :
  exists st,
    backgroundRun behindLoginScreen
      (loadEffect (codec := sampleCodec) None sampleStorage busyState) = Some st
    /\ Message.text <$> messages st = [quotaMessage]
    /\ sessions (loadEffect (codec := sampleCodec) (Some (utf16 "binh@kite.vn"))
                   sampleStorage st) = []
    /\ messages (loadEffect (codec := sampleCodec) (Some (utf16 "binh@kite.vn"))
                   sampleStorage st) = []
    /\ currentSessionId (loadEffect (codec := sampleCodec) (Some (utf16 "binh@kite.vn"))
                           sampleStorage st) = None.
Proof.
  destruct (backgroundRun behindLoginScreen
              (loadEffect (codec := sampleCodec) None sampleStorage busyState))
    as [st|] eqn:Hrun; [|vm_compute in Hrun; discriminate].
  exists st. split; [reflexivity|].
  split; [vm_compute in Hrun; injection Hrun as <-; reflexivity|].
  destruct (malformed_load_degrades (codec := sampleCodec) st
              (utf16 "binh@kite.vn") (utf16 "{oops") sampleStorage)
    as (H1 & H2 & H3 & _); try (vm_compute; reflexivity).
  - exact (afterLoggedOut None sampleStorage busyState behindLoginScreen st eq_refl Hrun).
  - repeat split; assumption.
Defined.

(** ** A [generate_image] call in the stream *)

Lemma mapBotMessage_twice botId f g (l : list Message.t) :
  (forall m, Message.id (g m) = Message.id m) ->
  mapBotMessage botId f (mapBotMessage botId g l)
  = mapBotMessage botId (fun m => f (g m)) l.
Proof.
  intros Hid. unfold mapBotMessage. rewrite map_map. apply map_ext. intros m.
  destruct (decide (Message.id m = botId)) as [E|E].
  - rewrite (bool_decide_eq_true_2 _ E).
    rewrite bool_decide_eq_true_2 by (rewrite Hid; exact E). reflexivity.
  - rewrite !(bool_decide_eq_false_2 _ E). reflexivity.
Qed.

(** The two messages of a turn under a rewrite of its placeholder. *)
Lemma mapBotMessage_turn botId f (l : list Message.t) (u b : Message.t) :
  Message.id b = botId ->
  last (mapBotMessage botId f (l ++ [u; b])) = Some (f b)
  /\ length (mapBotMessage botId f (l ++ [u; b])) = (length l + 2)%nat.
Proof.
  intros Hid. split.
  - change (l ++ [u; b]) with (l ++ [u] ++ [b]).
    rewrite app_assoc, mapBotMessage_snoc by exact Hid. apply last_snoc.
  - rewrite mapBotMessage_length, length_app. reflexivity.
Qed.

(** The state a streaming turn is in once a run of chunks without
    [generate_image] call has been consumed: their texts are on the
    placeholder, the turn is live and its controller is the active one. *)
Lemma plain_prefix (generateImage : jstring -> ImageExchange)
    (clk : TurnClock) (text : jstring) (attachment : option Attachment)
    (chunks : list StreamChunk) (st : HookState) :
  isBlank text && bool_decide (attachment = None) = false ->
  Forall (fun c => isImageCall c = false) chunks ->
  exists T st1 st2,
    sendMessage_begin clk text attachment false st = Some (T, st1)
    /\ (forall rest,
          consume generateImage T ((ChunkArrives <$> chunks) ++ rest) st1
          = consume generateImage T rest st2)
    /\ messages st2
       = messages st
         ++ [userMessageOf clk text attachment;
             Message.withText (concat (chunkContribution <$> chunks))
               (placeholderOf clk false)]
    /\ aborted (controller T) st2 = false
    /\ abortControllerRef st2 = Some (controller T)
    /\ (controller T < length (signals st2))%nat
    /\ outboundText T = text
    /\ botMsgId T = ofZ (botMsgNow clk + 1).
Proof.
  intros Hvalid Hplain.
  destruct (sendMessage_begin_accepts clk text attachment false st Hvalid)
    as (T & st1 & Hbegin).
  destruct (sendMessage_begin_streaming _ _ _ _ _ _ Hbegin)
    as (Hm & Hid & Hlive & Hactive & Hrange & _).
  exists T, st1, (applyUpdate st1 (SetMessages
    ((messages st ++ [userMessageOf clk text attachment])
     ++ [Message.withText (Message.text (placeholderOf clk false)
                           ++ textContribution chunks) (placeholderOf clk false)]))).
  split; [exact Hbegin|]. split.
  { intros rest. apply (consume_text_chunks _ _ _ _ Hplain st1 _ _ Hm Hid Hlive). }
  split.
  { cbn [messages applyUpdate].
    rewrite (textContribution_plain _ Hplain), <- app_assoc. reflexivity. }
  split; [exact Hlive|]. split; [exact Hactive|]. split; [exact Hrange|].
  apply sendMessage_begin_Some in Hbegin. destruct Hbegin as (-> & _).
  split; reflexivity.
Qed.

(** A [generate_image] call with arguments, after chunks without such a
    call: the caption of the call, then (unless the turn is stopped while
    the request is pending) the reply of the image service, are written onto
    the messages that carry the id of the placeholder; what follows the call
    is not looked at, and the loading flag is false. *)
Lemma streamed_call_run (generateImage : jstring -> ImageExchange)
    (clk : TurnClock) (text : jstring) (attachment : option Attachment)
    (chunks : list StreamChunk) (chunk : StreamChunk) (call : FunctionCall)
    (calls : list FunctionCall) (p : option jstring) (rest : list event)
    (fin : streamEnd) (st : HookState) :
  isBlank text && bool_decide (attachment = None) = false ->
  Forall (fun c => isImageCall c = false) chunks ->
  functionCalls chunk = Some (call :: calls) ->
  callName call = Some generateImageName ->
  callArgs call = Some p ->
  exists st',
    sendMessage generateImage clk text attachment false
      ((ChunkArrives <$> chunks) ++ ChunkArrives chunk :: rest) fin st = Some st'
    /\ messages st'
       = mapBotMessage (ofZ (botMsgNow clk + 1))
           (if stopWhilePending (generateImage (default text (truthyString p)))
            then Message.withText autoImageCaption
            else imageOutcome (generateImage (default text (truthyString p))))
           (messages st
            ++ [userMessageOf clk text attachment;
                Message.withText (concat (chunkContribution <$> chunks))
                  (placeholderOf clk false)])
    /\ isLoading st' = false.
Proof.
  intros Hvalid Hplain Hf Hn Ha.
  destruct (plain_prefix generateImage clk text attachment chunks st Hvalid Hplain)
    as (T & st1 & st2 & Hbegin & Hloop & Hm2 & Hlive2 & Hactive2 & Hrange2 & Htext & Hbot).
  unfold sendMessage. rewrite Hbegin, Hloop. cbn [consume].
  rewrite Hlive2, (chunkStep_call_with_args _ _ _ _ _ _ _ Hf Hn Ha), Htext.
  cbn [settle].
  set (st3 := applyUpdate st2 (UpdateMessages
                (mapBotMessage (botMsgId T) (Message.withText autoImageCaption)))).
  assert (Hm3 : messages st3
            = mapBotMessage (botMsgId T) (Message.withText autoImageCaption) (messages st2))
    by reflexivity.
  assert (Hlive3 : aborted (controller T) st3 = false) by exact Hlive2.
  assert (Hactive3 : abortControllerRef st3 = Some (controller T)) by exact Hactive2.
  assert (Hrange3 : (controller T < length (signals st3))%nat) by exact Hrange2.
  clearbody st3.
  destruct (stopWhilePending (generateImage (default text (truthyString p)))) eqn:Hstop.
  - rewrite (handleImageGeneration_stopped generateImage _ T st3 Hstop Hactive3 Hrange3).
    eexists. split; [reflexivity|].
    destruct (finallyBlock_frame T (stopGeneration st3)) as (-> & _ & _ & _ & Hfl).
    destruct (stopGeneration_fields st3) as (-> & Hsl & _).
    split; [|apply Hfl; left; exact Hsl].
    rewrite Hm3, Hm2, Hbot. reflexivity.
  - rewrite (handleImageGeneration_live generateImage _ T st3 Hstop Hlive3).
    eexists. split; [reflexivity|].
    destruct (finallyBlock_frame T
                (applyUpdate st3 (UpdateMessages (mapBotMessage (botMsgId T)
                   (imageOutcome (generateImage (default text (truthyString p))))))))
      as (-> & _ & _ & _ & Hfl).
    split; [|apply Hfl; right; exact Hactive3].
    cbn [messages applyUpdate].
    rewrite Hm3, Hm2, Hbot, mapBotMessage_twice by reflexivity.
    unfold mapBotMessage. apply map_ext. intros m.
    rewrite imageOutcome_withText. reflexivity.
Qed.

(** A [generate_image] call without arguments, after chunks without such a
    call: reading the prompt throws, the text streamed so far stays, the
    generic error message is appended after it, and the loading flag is
    false; what follows the call is not looked at. *)
Lemma bare_call_run (generateImage : jstring -> ImageExchange)
    (clk : TurnClock) (text : jstring) (attachment : option Attachment)
    (chunks : list StreamChunk) (chunk : StreamChunk) (call : FunctionCall)
    (calls : list FunctionCall) (rest : list event) (fin : streamEnd)
    (st : HookState) :
  isBlank text && bool_decide (attachment = None) = false ->
  Forall (fun c => isImageCall c = false) chunks ->
  functionCalls chunk = Some (call :: calls) ->
  callName call = Some generateImageName ->
  callArgs call = None ->
  exists st',
    sendMessage generateImage clk text attachment false
      ((ChunkArrives <$> chunks) ++ ChunkArrives chunk :: rest) fin st = Some st'
    /\ appendsErrorMessage
         (messages st
          ++ [userMessageOf clk text attachment;
              Message.withText (concat (chunkContribution <$> chunks))
                (placeholderOf clk false)])
         (messages st') genericMessage
    /\ isLoading st' = false.
Proof.
  intros Hvalid Hplain Hf Hn Ha.
  destruct (plain_prefix generateImage clk text attachment chunks st Hvalid Hplain)
    as (T & st1 & st2 & Hbegin & Hloop & Hm2 & Hlive2 & Hactive2 & _).
  unfold sendMessage. rewrite Hbegin, Hloop. cbn [consume].
  rewrite Hlive2, (chunkStep_call_without_args _ _ _ _ _ _ Hf Hn Ha). cbn [settle].
  assert (Hname : name typeError <> abortErrorName) by (vm_compute; discriminate).
  destruct (catchBlock_reports clk T typeError st2 Hlive2 Hname) as (Hcm & Hca & _).
  destruct (finallyBlock_frame T (catchBlock clk T typeError st2))
    as (Hfm & _ & _ & _ & Hfl).
  eexists. split; [reflexivity|].
  rewrite Hfm, Hcm, Hm2. split; [|apply Hfl; right; congruence].
  eexists. split; [reflexivity|]. repeat split; reflexivity.
Qed.

(** ** Cancelling a streaming turn *)

(** C4, as stated: a streaming turn stopped while the image request of a
    streamed [generate_image] call is pending does not end with the text of
    the chunks applied so far; the caption of the call has replaced it.
    (Whether the chunk of the call is counted among the applied ones or
    not.) *)
Lemma stop_during_image_request_loses_text :
  ~ cancelledWithPartialText pendingService sampleClock (utf16 "Draw a cat") None
      [textChunk "Sure. "] [ChunkArrives (imageCallChunk "a cat")] StreamDone initialState
  /\ ~ cancelledWithPartialText pendingService sampleClock (utf16 "Draw a cat") None
         [textChunk "Sure. "; imageCallChunk "a cat"] [] StreamDone initialState.
Proof.
  split; intros (st' & Hrun & (m & Hlast & Htext & _) & _);
    vm_compute in Hrun; injection Hrun as <-;
    vm_compute in Hlast; injection Hlast as <-;
    vm_compute in Htext; discriminate.
Qed.

(** C4, amended: a streaming turn during which only chunks arrive and stop
    is pressed.  Stopped between two chunks (or before the first), after
    chunks without [generate_image] call were applied, it ends, whatever the
    stream does afterwards, with the concatenation of the texts of those
    chunks as the text of the assistant message.  Stopped while the image
    request of a [generate_image] call of the stream is pending, it ends
    with the caption that the call wrote over the text streamed so far.  In
    both cases the assistant message carries no error flag, no message is
    appended to the two of the turn, and the loading flag is false. *)
Theorem cancelled_turn_text (generateImage : jstring -> ImageExchange)
    (clk : TurnClock) (text : jstring) (attachment : option Attachment)
    (chunks : list StreamChunk) (st : HookState) :
  isBlank text && bool_decide (attachment = None) = false ->
  Forall (fun c => isImageCall c = false) chunks ->
  (forall rest fin,
      exists st',
        sendMessage generateImage clk text attachment false
          ((ChunkArrives <$> chunks) ++ StopPressed :: rest) fin st = Some st'
        /\ messages st'
           = messages st
             ++ [userMessageOf clk text attachment;
                 Message.withText (concat (chunkContribution <$> chunks))
                   (placeholderOf clk false)]
        /\ Message.isError
             (Message.withText (concat (chunkContribution <$> chunks))
                (placeholderOf clk false)) = None
        /\ isLoading st' = false)
  /\ (forall chunk call calls p rest fin,
        functionCalls chunk = Some (call :: calls) ->
        callName call = Some generateImageName ->
        callArgs call = Some p ->
        stopWhilePending (generateImage (default text (truthyString p))) = true ->
        exists st',
          sendMessage generateImage clk text attachment false
            ((ChunkArrives <$> chunks) ++ ChunkArrives chunk :: rest) fin st = Some st'
          /\ messages st'
             = mapBotMessage (ofZ (botMsgNow clk + 1))
                 (Message.withText autoImageCaption)
                 (messages st
                  ++ [userMessageOf clk text attachment;
                      Message.withText (concat (chunkContribution <$> chunks))
                        (placeholderOf clk false)])
          /\ last (messages st')
             = Some (Message.withText autoImageCaption (placeholderOf clk false))
          /\ length (messages st') = (length (messages st) + 2)%nat
          /\ Message.isError
               (Message.withText autoImageCaption (placeholderOf clk false)) = None
          /\ isLoading st' = false).
Proof.
  intros Hvalid Hplain. split.
  - intros rest fin.
    apply (stop_between_chunks generateImage clk text attachment chunks rest fin st
             Hvalid Hplain).
  - intros chunk call calls p rest fin Hf Hn Ha Hstop.
    destruct (streamed_call_run generateImage clk text attachment chunks chunk call calls
                p rest fin st Hvalid Hplain Hf Hn Ha) as (st' & Hrun & Hm & Hload).
    rewrite Hstop in Hm.
    exists st'. split; [exact Hrun|]. split; [exact Hm|].
    destruct (mapBotMessage_turn (ofZ (botMsgNow clk + 1))
                (Message.withText autoImageCaption) (messages st)
                (userMessageOf clk text attachment)
                (Message.withText (concat (chunkContribution <$> chunks))
                   (placeholderOf clk false)) eq_refl) as [Hlast Hlen].
    rewrite Hm. split; [exact Hlast|]. split; [exact Hlen|].
    split; [reflexivity|exact Hload].
Qed.

Lemma cancelled_turn_text_witness :
  (exists st',
     sendMessage pendingService sampleClock (utf16 "Hello") None false
       ((ChunkArrives <$> [textChunk "Hi"; textChunk " there"])
        ++ StopPressed :: [ChunkArrives (textChunk ", how are you?")])
       StreamDone initialState = Some st'
     /\ Message.text <$> messages st' = [utf16 "Hello"; utf16 "Hi there"]
     /\ isLoading st' = false)
  /\ (exists st',
        sendMessage pendingService sampleClock (utf16 "Hello") None false
          ((ChunkArrives <$> [textChunk "Hi"; textChunk " there"])
           ++ ChunkArrives (imageCallChunk "a cat") :: [])
          StreamDone initialState = Some st'
        /\ Message.text <$> messages st' = [utf16 "Hello"; autoImageCaption]
        /\ isLoading st' = false).
Proof.
  destruct (cancelled_turn_text pendingService sampleClock (utf16 "Hello") None
              [textChunk "Hi"; textChunk " there"] initialState)
    as [Hbetween Hpending]; [reflexivity|repeat constructor|].
  split.
  - destruct (Hbetween [ChunkArrives (textChunk ", how are you?")] StreamDone)
      as (st' & Hrun & Hm & _ & Hload).
    exists st'. split; [exact Hrun|]. split; [rewrite Hm; reflexivity|exact Hload].
  - destruct (Hpending (imageCallChunk "a cat")
                (mkFunctionCall (Some generateImageName) (Some (Some (utf16 "a cat")))) []
                (Some (utf16 "a cat")) [] StreamDone eq_refl eq_refl eq_refl eq_refl)
      as (st' & Hrun & Hm & _ & _ & _ & Hload).
    exists st'. split; [exact Hrun|]. split; [rewrite Hm; reflexivity|exact Hload].
Defined.

(** ** A streaming turn that is not cancelled *)

(** C5, amended: a streaming turn during which only chunks arrive (no stop,
    nothing else).  Chunks that carry no [generate_image] call are appended
    in arrival order, none dropped, and the turn ends with their
    concatenation as the assistant text.  Once a chunk carries such a call,
    what follows it (further chunks, the way the stream ends) contributes
    nothing to the turn; when the call has arguments, the assistant message
    is what the image path makes of the placeholder (the image and its
    caption, or an error text), the text streamed so far being gone; when
    the call has no arguments, the text streamed so far stays and the
    generic error message is appended after it. *)
Theorem stream_text_accumulates (generateImage : jstring -> ImageExchange)
    (clk : TurnClock) (text : jstring) (attachment : option Attachment)
    (chunks : list StreamChunk) (st : HookState) :
  isBlank text && bool_decide (attachment = None) = false ->
  Forall (fun c => isImageCall c = false) chunks ->
  (exists st',
     sendMessage generateImage clk text attachment false
       (ChunkArrives <$> chunks) StreamDone st = Some st'
     /\ messages st'
        = messages st
          ++ [userMessageOf clk text attachment;
              Message.withText (concat (chunkContribution <$> chunks))
                (placeholderOf clk false)]
     /\ isLoading st' = false)
  /\ finalTextIsContribution generateImage clk text attachment chunks st
  /\ (forall call after fin,
        isImageCall call = true ->
        sendMessage generateImage clk text attachment false
          (ChunkArrives <$> (chunks ++ call :: after)) fin st
        = sendMessage generateImage clk text attachment false
            (ChunkArrives <$> (chunks ++ [call])) StreamDone st)
  /\ (forall chunk call calls p after fin,
        functionCalls chunk = Some (call :: calls) ->
        callName call = Some generateImageName ->
        callArgs call = Some p ->
        stopWhilePending (generateImage (default text (truthyString p))) = false ->
        exists st',
          sendMessage generateImage clk text attachment false
            (ChunkArrives <$> (chunks ++ chunk :: after)) fin st = Some st'
          /\ messages st'
             = mapBotMessage (ofZ (botMsgNow clk + 1))
                 (imageOutcome (generateImage (default text (truthyString p))))
                 (messages st
                  ++ [userMessageOf clk text attachment;
                      Message.withText (concat (chunkContribution <$> chunks))
                        (placeholderOf clk false)])
          /\ last (messages st')
             = Some (imageOutcome (generateImage (default text (truthyString p)))
                       (placeholderOf clk false))
          /\ length (messages st') = (length (messages st) + 2)%nat
          /\ isLoading st' = false)
  /\ (forall chunk call calls after fin,
        functionCalls chunk = Some (call :: calls) ->
        callName call = Some generateImageName ->
        callArgs call = None ->
        exists st',
          sendMessage generateImage clk text attachment false
            (ChunkArrives <$> (chunks ++ chunk :: after)) fin st = Some st'
          /\ appendsErrorMessage
               (messages st
                ++ [userMessageOf clk text attachment;
                    Message.withText (concat (chunkContribution <$> chunks))
                      (placeholderOf clk false)])
               (messages st') genericMessage
          /\ isLoading st' = false).
Proof.
  intros Hvalid Hplain.
  destruct (plain_stream_runs generateImage clk text attachment chunks st Hvalid Hplain)
    as (Hrun & Hfinal & Hafter).
  split; [exact Hrun|]. split; [exact Hfinal|]. split; [exact Hafter|]. split.
  - intros chunk call calls p after fin Hf Hn Ha Hstop.
    rewrite fmap_app, fmap_cons.
    destruct (streamed_call_run generateImage clk text attachment chunks chunk call calls
                p (ChunkArrives <$> after) fin st Hvalid Hplain Hf Hn Ha)
      as (st' & Hcall & Hm & Hload).
    rewrite Hstop in Hm.
    exists st'. split; [exact Hcall|]. split; [exact Hm|].
    destruct (mapBotMessage_turn (ofZ (botMsgNow clk + 1))
                (imageOutcome (generateImage (default text (truthyString p))))
                (messages st) (userMessageOf clk text attachment)
                (Message.withText (concat (chunkContribution <$> chunks))
                   (placeholderOf clk false)) eq_refl) as [Hlast Hlen].
    rewrite Hm. split; [|split; [exact Hlen|exact Hload]].
    rewrite Hlast, imageOutcome_withText. reflexivity.
  - intros chunk call calls after fin Hf Hn Ha.
    rewrite fmap_app, fmap_cons.
    apply (bare_call_run generateImage clk text attachment chunks chunk call calls
             (ChunkArrives <$> after) fin st Hvalid Hplain Hf Hn Ha).
Qed.

Lemma stream_text_accumulates_witness :
  (finalTextIsContribution pictureService sampleClock (utf16 "Hello") None
     [textChunk "Hi"; mkChunk None None; textChunk " there"] initialState
   /\ textContribution [textChunk "Hi"; mkChunk None None; textChunk " there"]
      = utf16 "Hi there")
  /\ (exists st',
        sendMessage pictureService sampleClock (utf16 "Hello") None false
          (ChunkArrives <$> ([textChunk "Hi"; mkChunk None None; textChunk " there"]
                             ++ imageCallChunk "a cat" :: [textChunk "ignored"]))
          (StreamFailed quotaError) initialState = Some st'
        /\ Message.text <$> messages st' = [utf16 "Hello"; imageReadyCaption]
        /\ isLoading st' = false)
  /\ (exists st',
        sendMessage pictureService sampleClock (utf16 "Hello") None false
          (ChunkArrives <$> ([textChunk "Hi"; mkChunk None None; textChunk " there"]
                             ++ bareImageCallChunk :: [textChunk "ignored"]))
          StreamDone initialState = Some st'
        /\ Message.text <$> messages st'
           = [utf16 "Hello"; utf16 "Hi there"; genericMessage]
        /\ isLoading st' = false).
Proof.
  destruct (stream_text_accumulates pictureService sampleClock (utf16 "Hello") None
              [textChunk "Hi"; mkChunk None None; textChunk " there"] initialState)
    as (_ & Hfinal & _ & Hcall & Hbare); [reflexivity|repeat constructor|].
  split; [split; [exact Hfinal|reflexivity]|]. split.
  - destruct (Hcall (imageCallChunk "a cat")
                (mkFunctionCall (Some generateImageName) (Some (Some (utf16 "a cat")))) []
                (Some (utf16 "a cat")) [textChunk "ignored"] (StreamFailed quotaError)
                eq_refl eq_refl eq_refl eq_refl)
      as (st' & Hrun & Hm & _ & _ & Hload).
    exists st'. split; [exact Hrun|]. split; [rewrite Hm; reflexivity|exact Hload].
  - destruct (Hbare bareImageCallChunk (mkFunctionCall (Some generateImageName) None) []
                [textChunk "ignored"] StreamDone eq_refl eq_refl eq_refl)
      as (st' & Hrun & (m & Hm & _ & _ & Htext) & Hload).
    exists st'. split; [exact Hrun|]. split; [|exact Hload].
    rewrite Hm, fmap_app. simpl. rewrite Htext. reflexivity.
Defined.

(** ** A turn that fails, by where it fails *)

(** C8, amended: a turn that is not cancelled, and during which only chunks
    arrive.  When its stream fails, after chunks without [generate_image]
    call, with an error that is not named [AbortError], one assistant
    message is appended after the text streamed so far, flagged as an error
    and carrying the quota message when the failure is a quota exhaustion
    and the generic message otherwise; the backend context is a fresh one.
    When what fails is an image request, that of a turn in image mode or
    that of a [generate_image] call of the stream, the same choice of text
    and the error flag are written onto the placeholder of the turn and no
    message is appended.  In each case the call returns a state (nothing is
    thrown) and the loading flag is false. *)
Theorem failure_reported (generateImage : jstring -> ImageExchange)
    (clk : TurnClock) (text : jstring) (attachment : option Attachment)
    (chunks : list StreamChunk) (e : JsError) (st : HookState) :
  isBlank text && bool_decide (attachment = None) = false ->
  Forall (fun c => isImageCall c = false) chunks ->
  (name e <> abortErrorName ->
   exists st',
     sendMessage generateImage clk text attachment false
       (ChunkArrives <$> chunks) (StreamFailed e) st = Some st'
     /\ appendsErrorMessage
          (messages st
           ++ [userMessageOf clk text attachment;
               Message.withText (concat (chunkContribution <$> chunks))
                 (placeholderOf clk false)])
          (messages st')
          (if isQuotaError e then quotaMessage else genericMessage)
     /\ isLoading st' = false
     /\ chatSessionRef st' = Some (createChatSession (currentModel st) []))
  /\ (forall evs fin,
        stopWhilePending (generateImage text) = false ->
        imageResult (generateImage text) = ImageFailure e ->
        exists st',
          sendMessage generateImage clk text attachment true evs fin st = Some st'
          /\ messages st'
             = mapBotMessage (ofZ (botMsgNow clk + 1))
                 (Message.withTextError
                    (if isQuotaError e then quotaMessage else genericMessage))
                 (messages st
                  ++ [userMessageOf clk text attachment; placeholderOf clk true])
          /\ last (messages st')
             = Some (Message.withTextError
                       (if isQuotaError e then quotaMessage else genericMessage)
                       (placeholderOf clk true))
          /\ length (messages st') = (length (messages st) + 2)%nat
          /\ isLoading st' = false)
  /\ (forall chunk call calls p after fin,
        functionCalls chunk = Some (call :: calls) ->
        callName call = Some generateImageName ->
        callArgs call = Some p ->
        stopWhilePending (generateImage (default text (truthyString p))) = false ->
        imageResult (generateImage (default text (truthyString p))) = ImageFailure e ->
        exists st',
          sendMessage generateImage clk text attachment false
            (ChunkArrives <$> (chunks ++ chunk :: after)) fin st = Some st'
          /\ messages st'
             = mapBotMessage (ofZ (botMsgNow clk + 1))
                 (Message.withTextError
                    (if isQuotaError e then quotaMessage else genericMessage))
                 (messages st
                  ++ [userMessageOf clk text attachment;
                      Message.withText (concat (chunkContribution <$> chunks))
                        (placeholderOf clk false)])
          /\ last (messages st')
             = Some (Message.withTextError
                       (if isQuotaError e then quotaMessage else genericMessage)
                       (placeholderOf clk false))
          /\ length (messages st') = (length (messages st) + 2)%nat
          /\ isLoading st' = false).
Proof.
  intros Hvalid Hplain. split; [|split].
  - intros Hname.
    apply (stream_failure_appended generateImage clk text attachment chunks e st
             Hvalid Hplain Hname).
  - intros evs fin Hstop Hfail.
    destruct (image_mode_failure generateImage clk text attachment e evs fin st
                Hvalid Hstop Hfail) as (st' & Hrun & Hm & Hload).
    exists st'. split; [exact Hrun|]. split; [exact Hm|].
    destruct (mapBotMessage_turn (ofZ (botMsgNow clk + 1))
                (Message.withTextError
                   (if isQuotaError e then quotaMessage else genericMessage))
                (messages st) (userMessageOf clk text attachment)
                (placeholderOf clk true) eq_refl) as [Hlast Hlen].
    rewrite Hm. split; [exact Hlast|]. split; [exact Hlen|exact Hload].
  - intros chunk call calls p after fin Hf Hn Ha Hstop Hfail.
    rewrite fmap_app, fmap_cons.
    destruct (streamed_call_run generateImage clk text attachment chunks chunk call calls
                p (ChunkArrives <$> after) fin st Hvalid Hplain Hf Hn Ha)
      as (st' & Hrun & Hm & Hload).
    rewrite Hstop in Hm. unfold imageOutcome in Hm. rewrite Hfail in Hm.
    rewrite getFriendlyErrorMessage_cases in Hm.
    exists st'. split; [exact Hrun|]. split; [exact Hm|].
    destruct (mapBotMessage_turn (ofZ (botMsgNow clk + 1))
                (Message.withTextError
                   (if isQuotaError e then quotaMessage else genericMessage))
                (messages st) (userMessageOf clk text attachment)
                (Message.withText (concat (chunkContribution <$> chunks))
                   (placeholderOf clk false)) eq_refl) as [Hlast Hlen].
    rewrite Hm. split; [exact Hlast|]. split; [exact Hlen|exact Hload].
Qed.

Lemma failure_reported_witness :
  (exists st',
     sendMessage exhaustedService sampleClock (utf16 "Draw a cat") None false
       (ChunkArrives <$> [textChunk "Sure. "]) (StreamFailed quotaError) initialState
     = Some st'
     /\ Message.text <$> messages st' = [utf16 "Draw a cat"; utf16 "Sure. "; quotaMessage]
     /\ Message.isError <$> messages st' = [None; None; Some true]
     /\ isLoading st' = false)
  /\ (exists st',
        sendMessage exhaustedService sampleClock (utf16 "Draw a cat") None true
          [] StreamDone initialState = Some st'
        /\ Message.text <$> messages st' = [utf16 "Draw a cat"; quotaMessage]
        /\ isLoading st' = false)
  /\ (exists st',
        sendMessage exhaustedService sampleClock (utf16 "Draw a cat") None false
          (ChunkArrives <$> ([textChunk "Sure. "] ++ imageCallChunk "a cat" :: []))
          StreamDone initialState = Some st'
        /\ Message.text <$> messages st' = [utf16 "Draw a cat"; quotaMessage]
        /\ Message.isError <$> messages st' = [None; Some true]
        /\ isLoading st' = false).
Proof.
  destruct (failure_reported exhaustedService sampleClock (utf16 "Draw a cat") None
              [textChunk "Sure. "] quotaError initialState)
    as (Hstream & Hmode & Hcall); [reflexivity|repeat constructor|].
  split; [|split].
  - destruct Hstream as (st' & Hrun & (m & Hm & _ & Herr & Htext) & Hload & _).
    { vm_compute. discriminate. }
    exists st'. split; [exact Hrun|]. split; [|split; [|exact Hload]].
    + rewrite Hm, fmap_app. simpl. rewrite Htext. reflexivity.
    + rewrite Hm, fmap_app. simpl. rewrite Herr. reflexivity.
  - destruct (Hmode [] StreamDone eq_refl eq_refl) as (st' & Hrun & Hm & _ & _ & Hload).
    exists st'. split; [exact Hrun|]. split; [rewrite Hm; reflexivity|exact Hload].
  - destruct (Hcall (imageCallChunk "a cat")
                (mkFunctionCall (Some generateImageName) (Some (Some (utf16 "a cat")))) []
                (Some (utf16 "a cat")) [] StreamDone eq_refl eq_refl eq_refl eq_refl eq_refl)
      as (st' & Hrun & Hm & _ & _ & Hload).
    exists st'. split; [exact Hrun|]. split; [rewrite Hm; reflexivity|].
    split; [rewrite Hm; reflexivity|exact Hload].
Defined.
